(** * casbin-firestore-adapter: the policy record mapping and its mutation protocol

    A shallow embedding of [adapter.go] and [model.go].  The Go code talks to
    two collaborators that are not part of the repository: the Firestore
    client (collections of documents, queries, transactions) and casbin's
    in-memory [model.Model].  Both are given small executable models here,
    and everything the Go program leaves to its environment (the iteration
    order of a Go [map], the order in which a query streams its documents,
    the identifiers [NewDoc] draws, transport failures) is gathered in one
    record, [Env], over which the theorems quantify. *)

From Stdlib Require Import ZArith String Ascii List.
From stdpp Require Import gmap strings list fin_maps pretty.

Local Open Scope string_scope.
Local Open Scope list_scope.
Local Open Scope stdpp_scope.

(** ** Go values *)

Module Go.

(** Go's [error] interface; [None] plays the role of [nil]. *)
Definition error := string.

(** [int] is 64 bits wide on the platforms the Firestore client supports;
    arithmetic wraps around silently. *)
Definition min_int : Z := - 2 ^ 63.
Definition max_int : Z := 2 ^ 63 - 1.

Definition wrap (z : Z) : Z := (z + 2 ^ 63) mod 2 ^ 64 - 2 ^ 63.

Definition is_int (z : Z) : Prop := (min_int <= z <= max_int)%Z.

Definition add (a b : Z) : Z := wrap (a + b).
Definition sub (a b : Z) : Z := wrap (a - b).

(** [len(s)] of a slice, as an [int]. *)
Definition len {A} (s : list A) : Z := Z.of_nat (length s).

(** A [[]string] occupies sixteen bytes per element, so no slice of a
    64-bit program reaches [2^59] elements. *)
Definition max_slice_len : Z := 2 ^ 59.

(** [s[i]]: [None] stands for the run-time panic "index out of range". *)
Definition index {A} (s : list A) (i : Z) : option A :=
  if (i <? 0)%Z then None else s !! Z.to_nat i.

(** [s[:n]] on a string: [None] stands for the panic "slice bounds out of
    range".  Go strings are byte sequences, as are Rocq's. *)
Definition slice_to (n : nat) (s : string) : option string :=
  if decide (n <= String.length s) then Some (String.substring 0 n s) else None.

End Go.

(** ** The flat record ([CasbinRule]) *)

Record CasbinRule := mkCasbinRule {
  PType : string;
  V0 : string;
  V1 : string;
  V2 : string;
  V3 : string;
  V4 : string;
  V5 : string
}.

(** The six value fields of a record, in order. *)
Definition fields (line : CasbinRule) : list string :=
  [V0 line; V1 line; V2 line; V3 line; V4 line; V5 line].

(** [savePolicyLine]: every [if len(rule) > k { line.Vk = rule[k] }] of the
    source, the zero value [""] being what the struct literal leaves. *)
Definition savePolicyLine (ptype : string) (rule : list string) : CasbinRule :=
  let at_ (k : nat) := if (k <? length rule)%nat then nth k rule "" else "" in
  {| PType := ptype;
     V0 := at_ 0%nat; V1 := at_ 1%nat; V2 := at_ 2%nat;
     V3 := at_ 3%nat; V4 := at_ 4%nat; V5 := at_ 5%nat |}.

(** ** casbin's policy model *)

(** Of casbin's [Assertion] the adapter reads and writes the [Policy] field
    only. *)
Record Assertion := mkAssertion {
  Policy : list (list string)
}.

(** [model.Model] is [map[string]AssertionMap], and [AssertionMap] is
    [map[string]*Assertion].  casbin allocates one assertion per section and
    key, so the pointers never alias and the inner map can hold the
    assertions themselves; an absent key is the [nil] pointer. *)
Abbreviation AssertionMap := (gmap string Assertion).
Abbreviation Model := (gmap string (gmap string Assertion)).

(** [model[sec][key]], where indexing a missing section yields the nil map
    and indexing the nil map yields the nil pointer. *)
Definition assertion_at (model : Model) (sec key : string) : option Assertion :=
  model !! sec ≫= fun am => am !! key.

(** The rule list stored under a section and a policy type. *)
Definition policy_at (model : Model) (sec key : string) : list (list string) :=
  match assertion_at model sec key with
  | Some ast => Policy ast
  | None => []
  end.

(** [model[sec][key].Policy = append(model[sec][key].Policy, tokens)];
    [None] is the nil-pointer panic of a missing assertion. *)
Definition append_policy (model : Model) (sec key : string) (tokens : list string)
  : option Model :=
  match model !! sec with
  | None => None
  | Some am =>
      match am !! key with
      | None => None
      | Some ast =>
          Some (<[sec := <[key := {| Policy := Policy ast ++ [tokens] |}]> am]> model)
      end
  end.

(** The [tokens] slice that [loadPolicyLine] builds: each [if] appends its
    field, each [else] jumps to [LineEnd]. *)
Definition line_tokens (line : CasbinRule) : list string :=
  let tokens : list string := [] in
  if decide (V0 line ≠ "") then
    let tokens := tokens ++ [V0 line] in
    if decide (V1 line ≠ "") then
      let tokens := tokens ++ [V1 line] in
      if decide (V2 line ≠ "") then
        let tokens := tokens ++ [V2 line] in
        if decide (V3 line ≠ "") then
          let tokens := tokens ++ [V3 line] in
          if decide (V4 line ≠ "") then
            let tokens := tokens ++ [V4 line] in
            if decide (V5 line ≠ "") then tokens ++ [V5 line]
            else tokens
          else tokens
        else tokens
      else tokens
    else tokens
  else tokens.

(** [loadPolicyLine]: [key[:1]] is evaluated first and panics on an empty
    type; the assignment at [LineEnd] dereferences [model[sec][key]]. *)
Definition loadPolicyLine (line : CasbinRule) (model : Model) : option Model :=
  let key := PType line in
  sec ← Go.slice_to 1 key;
  append_policy model sec key (line_tokens line).

(** The section of a policy type, as the spec words it: its first character. *)
Definition section_of (ptype : string) : string :=
  match ptype with
  | EmptyString => ""
  | String c _ => String c EmptyString
  end.

(** The decoded rule, as the spec words it: the longest prefix of the six
    fields that holds no empty string. *)
Fixpoint longest_nonempty_prefix (l : list string) : list string :=
  match l with
  | [] => []
  | x :: l' => if decide (x = "") then [] else x :: longest_nonempty_prefix l'
  end.

(** ** The Firestore client, as far as the adapter uses it *)

Module Firestore.

(** A field of a document holds a typed value.  The adapter writes strings
    only; [VInteger] stands for the values of any other type that a
    document written by somebody else may hold. *)
Inductive Value :=
| VString (s : string)
| VInteger (n : Z).

(** A document is a map from field names to values, a collection a map from
    document identifiers to documents. *)
Abbreviation DocData := (gmap string Value).
Abbreviation Collection := (gmap string (gmap string Value)).

Record DocumentSnapshot := mkSnapshot {
  Ref : string;
  Data : gmap string Value
}.

(** The two comparison operators the adapter passes to [Where]. *)
Inductive Op := OpEq | OpGt.

#[global] Instance Op_eq_dec : EqDecision Op.
Proof. solve_decision. Defined.

Record Filter := mkFilter {
  path : string;
  op : Op;
  operand : string
}.

(** A query is the conjunction of its filters. *)
Abbreviation Query := (list Filter).

Definition Where (q : Query) (p : string) (o : Op) (v : string) : Query :=
  q ++ [mkFilter p o v].

(** A filter selects the documents in which the field exists, holds a
    string, and compares as asked with the operand (byte-wise order). *)
Definition holds (f : Filter) (d : DocData) : bool :=
  match d !! path f with
  | Some (VString s) =>
      match op f with
      | OpEq => String.eqb s (operand f)
      | OpGt => String.ltb (operand f) s
      end
  | _ => false
  end.

Definition matches (q : Query) (d : DocData) : bool :=
  forallb (fun f => holds f d) q.

(** The writes a transaction buffers until it commits. *)
Inductive Write :=
| WDelete (id : string)
| WCreate (id : string) (d : DocData)
| WSet (id : string) (d : DocData).

(** What the adapter does to the store, in the order it does it. *)
Inductive Event :=
| EvTransaction
| EvQuery (q : Query)
| EvWrite (w : Write).

(** Everything one call leaves to its environment. *)
Record Env := mkEnv {
  (** the order of the n-th [range] over a Go map *)
  range_seed : nat -> list nat;
  (** the order in which a query streams its documents *)
  stream_seed : list nat;
  (** the identifier drawn by the i-th [NewDoc] *)
  new_id : nat -> string;
  (** the document iterator fails after so many documents *)
  iter_fault : option (nat * Go.error);
  (** [tx.Delete], [tx.Create] or [tx.Set] refuses a write *)
  write_fault : Write -> option Go.error;
  (** the commit is refused (contention, permission, quota) *)
  commit_fault : option Go.error
}.

(** A seed picks an order: at each step the element at index
    [c mod length l] of what is left comes next.  Every seed yields a
    permutation; the empty seed leaves the list as it stands. *)
Fixpoint arrange {A} (seed : list nat) (l : list A) : list A :=
  match seed with
  | [] => l
  | c :: seed' =>
      let i := (c mod length l)%nat in
      match l !! i with
      | Some x => x :: arrange seed' (delete i l)
      | None => l
      end
  end.

(** [for k, v := range m] visits every entry once, in an order of the
    runtime's choosing. *)
Definition range {A} (env : Env) (n : nat) (m : gmap string A) : list (string * A) :=
  arrange (range_seed env n) (map_to_list m).

Definition snapshots (c : Collection) : list DocumentSnapshot :=
  (fun kv => mkSnapshot kv.1 kv.2) <$> map_to_list c.

(** The documents of a collection that a query selects. *)
Definition matching (q : Query) (c : Collection) : list DocumentSnapshot :=
  filter (fun s => matches q (Data s)) (snapshots c).

(** The successive results of [iter.Next()] up to [iterator.Done]: the
    selected documents, cut short by an error if the transport fails. *)
Definition Documents (env : Env) (q : Query) (c : Collection)
  : list (Go.error + DocumentSnapshot) :=
  let docs := arrange (stream_seed env) (matching q c) in
  match iter_fault env with
  | None => inr <$> docs
  | Some (n, e) => (inr <$> take n docs) ++ [inl e]
  end.

(** The commit applies the buffered writes in order; [Create] carries the
    precondition that the document does not exist. *)
Definition apply_write (w : Write) (c : Collection) : Go.error + Collection :=
  match w with
  | WDelete id => inr (delete id c)
  | WCreate id d =>
      match c !! id with
      | Some _ => inl "AlreadyExists"
      | None => inr (<[id := d]> c)
      end
  | WSet id d => inr (<[id := d]> c)
  end.

Fixpoint apply_writes (ws : list Write) (c : Collection) : Go.error + Collection :=
  match ws with
  | [] => inr c
  | w :: ws' =>
      match apply_write w c with
      | inl e => inl e
      | inr c' => apply_writes ws' c'
      end
  end.

Definition buffered (log : list Event) : list Write :=
  omap (fun ev => match ev with EvWrite w => Some w | _ => None end) log.

Definition queries (log : list Event) : list Query :=
  omap (fun ev => match ev with EvQuery q => Some q | _ => None end) log.

Definition transactions (log : list Event) : nat :=
  length (omap (fun ev => match ev with EvTransaction => Some tt | _ => None end) log).

(** *** Transaction bodies

    A body runs against the log of what it has done so far and either
    fails with an error or yields a value. *)
Definition Tx (A : Type) : Type := list Event -> (Go.error + A) * list Event.

#[global] Instance tx_ret : MRet Tx := fun A a log => (inr a, log).

#[global] Instance tx_bind : MBind Tx := fun A B f m log =>
  match m log with
  | (inl e, log') => (inl e, log')
  | (inr a, log') => f a log'
  end.

(** [tx.Documents(q)] *)
Definition tx_Documents (env : Env) (c : Collection) (q : Query)
  : Tx (list (Go.error + DocumentSnapshot)) :=
  fun log => (inr (Documents env q c), log ++ [EvQuery q]).

Definition tx_write (env : Env) (w : Write) : Tx unit :=
  fun log =>
    match write_fault env w with
    | Some e => (inl e, log)
    | None => (inr tt, log ++ [EvWrite w])
    end.

(** [tx.Delete(ref)], [tx.Create(ref, data)], [tx.Set(ref, data)] *)
Definition tx_Delete (env : Env) (ref : string) : Tx unit :=
  tx_write env (WDelete ref).
Definition tx_Create (env : Env) (ref : string) (d : DocData) : Tx unit :=
  tx_write env (WCreate ref d).
Definition tx_Set (env : Env) (ref : string) (d : DocData) : Tx unit :=
  tx_write env (WSet ref d).

(** What a call hands back: its Go result, the collection afterwards, and
    what it did to the store. *)
Record Result (A : Type) := mkResult {
  ret : A;
  store : Collection;
  trace : list Event
}.
#[global] Arguments mkResult {A} _ _ _.
#[global] Arguments ret {A} _.
#[global] Arguments store {A} _.
#[global] Arguments trace {A} _.

(** [client.RunTransaction(ctx, f)]: if the body fails nothing is written;
    otherwise the buffered writes are committed together or not at all.
    (The client may run the body again after an aborted attempt; an
    attempt is what is modelled.) *)
Definition RunTransaction (env : Env) (c : Collection) (body : Tx unit)
  : Result (option Go.error) :=
  match body [EvTransaction] with
  | (inl e, log) => mkResult (Some e) c log
  | (inr _, log) =>
      match commit_fault env with
      | Some e => mkResult (Some e) c log
      | None =>
          match apply_writes (buffered log) c with
          | inl e => mkResult (Some e) c log
          | inr c' => mkResult None c' log
          end
      end
  end.

End Firestore.

Import Firestore.

(** ** Records as documents *)

(** What [tx.Create(ref, &line)] stores: the seven fields under their
    [firestore:"..."] tags, empty strings included (no tag says
    [omitempty]). *)
Definition toDoc (line : CasbinRule) : DocData :=
  <["p_type" := VString (PType line)]>
  (<["v0" := VString (V0 line)]>
  (<["v1" := VString (V1 line)]>
  (<["v2" := VString (V2 line)]>
  (<["v3" := VString (V3 line)]>
  (<["v4" := VString (V4 line)]>
  (<["v5" := VString (V5 line)]> ∅)))))).

(** One struct field of [doc.DataTo(&rule)]: a field the document lacks
    leaves the zero value, a value that is not a string is an error. *)
Definition string_field (d : DocData) (name : string) : Go.error + string :=
  match d !! name with
  | None => inr ""
  | Some (VString s) => inr s
  | Some (VInteger _) => inl ("firestore: cannot set type string to int: " +:+ name)
  end.

Definition DataTo (d : DocData) : Go.error + CasbinRule :=
  match string_field d "p_type", string_field d "v0", string_field d "v1",
        string_field d "v2", string_field d "v3", string_field d "v4",
        string_field d "v5" with
  | inr t, inr a, inr b, inr c, inr e, inr f, inr g => inr (mkCasbinRule t a b c e f g)
  | inl err, _, _, _, _, _, _
  | _, inl err, _, _, _, _, _
  | _, _, inl err, _, _, _, _
  | _, _, _, inl err, _, _, _
  | _, _, _, _, inl err, _, _
  | _, _, _, _, _, inl err, _
  | _, _, _, _, _, _, inl err => inl err
  end.

(** ** The adapter ([adapter.go]) *)

(** [newQuery]: the collection, restricted to [p_type > ""]. *)
Definition newQuery : Query := Where [] "p_type" OpGt "".

(** How a Go function that can panic ends. *)
Inductive Completion :=
| Return (err : option Go.error)
| Panic.

(** The first loop of [LoadPolicy]: documents are decoded into the local
    slice [rules]; the first error ends the call. *)
Fixpoint collect_rules (items : list (Go.error + DocumentSnapshot))
    (rules : list CasbinRule) : Go.error + list CasbinRule :=
  match items with
  | [] => inr rules
  | inl err :: _ => inl err
  | inr doc :: rest =>
      match DataTo (Data doc) with
      | inl err => inl err
      | inr rule => collect_rules rest (rules ++ [rule])
      end
  end.

(** The second loop of [LoadPolicy].  A panic leaves the model as the
    lines before it made it. *)
Fixpoint load_each (rules : list CasbinRule) (model : Model) : Completion * Model :=
  match rules with
  | [] => (Return None, model)
  | rule :: rest =>
      match loadPolicyLine rule model with
      | None => (Panic, model)
      | Some model' => load_each rest model'
      end
  end.

Definition LoadPolicy (env : Env) (c : Collection) (model : Model)
  : Result (Completion * Model) :=
  let query := newQuery in
  let log := [EvQuery query] in
  match collect_rules (Documents env query c) [] with
  | inl err => mkResult (Return (Some err), model) c log
  | inr rules => mkResult (load_each rules model) c log
  end.

(** The loop the three deleting operations share: [iter.Next()] until
    [iterator.Done], deleting each document on the way. *)
Fixpoint delete_each (env : Env) (items : list (Go.error + DocumentSnapshot)) : Tx unit :=
  match items with
  | [] => mret tt
  | inl err :: _ => fun log => (inl err, log)
  | inr doc :: rest => _ ← tx_Delete env (Ref doc); delete_each env rest
  end.

(** [for _, line := range lines { tx.Create(policies.NewDoc(), &line) }];
    [i] counts the calls of [NewDoc]. *)
Fixpoint create_each (env : Env) (lines : list CasbinRule) (i : nat) : Tx unit :=
  match lines with
  | [] => mret tt
  | line :: rest =>
      _ ← tx_Create env (new_id env i) (toDoc line); create_each env rest (S i)
  end.

(** The lines [SavePolicy] builds from one section: for every policy type,
    in the order of the [range], one line per rule. *)
Definition section_lines (env : Env) (n : nat) (am : AssertionMap) : list CasbinRule :=
  '(ptype, ast) ← range env n am; savePolicyLine ptype <$> Policy ast.

Definition SavePolicy_lines (env : Env) (model : Model) : list CasbinRule :=
  section_lines env 0 (default ∅ (model !! "p"))
  ++ section_lines env 1 (default ∅ (model !! "g")).

Definition SavePolicy (env : Env) (c : Collection) (model : Model)
  : Result (option Go.error) :=
  let lines := SavePolicy_lines env model in
  RunTransaction env c (
    iter ← tx_Documents env c newQuery;
    _ ← delete_each env iter;
    create_each env lines 0).

Definition AddPolicy (env : Env) (c : Collection) (sec ptype : string)
    (rule : list string) : Result (option Go.error) :=
  let line := savePolicyLine ptype rule in
  RunTransaction env c (tx_Create env (new_id env 0) (toDoc line)).

Definition RemovePolicy_query (line : CasbinRule) : Query :=
  Where (Where (Where (Where (Where (Where newQuery
    "p_type" OpEq (PType line))
    "v0" OpEq (V0 line))
    "v1" OpEq (V1 line))
    "v2" OpEq (V2 line))
    "v3" OpEq (V3 line))
    "v4" OpEq (V4 line).

Definition RemovePolicy (env : Env) (c : Collection) (sec ptype : string)
    (rule : list string) : Result (option Go.error) :=
  let line := savePolicyLine ptype rule in
  let q := RemovePolicy_query line in
  RunTransaction env c (
    iter ← tx_Documents env c q;
    delete_each env iter).

(** One of the six blocks of [RemoveFilteredPolicy]:
    [if fieldIndex <= k && k < fieldIndex+len(fieldValues) {
       if fieldValues[k-fieldIndex] != "" { selector[name] = fieldValues[k-fieldIndex] } }] *)
Definition select_field (k : Z) (name : string) (fieldIndex : Z)
    (fieldValues : list string) (selector : gmap string string)
  : option (gmap string string) :=
  if ((fieldIndex <=? k)%Z && (k <? Go.add fieldIndex (Go.len fieldValues))%Z)%bool then
    v ← Go.index fieldValues (Go.sub k fieldIndex);
    if decide (v ≠ "") then Some (<[name := v]> selector) else Some selector
  else Some selector.

(** The [selector] map; [None] is an index-out-of-range panic. *)
Definition RemoveFilteredPolicy_selector (ptype : string) (fieldIndex : Z)
    (fieldValues : list string) : option (gmap string string) :=
  let selector : gmap string string := <["p_type" := ptype]> ∅ in
  selector ← select_field 0 "v0" fieldIndex fieldValues selector;
  selector ← select_field 1 "v1" fieldIndex fieldValues selector;
  selector ← select_field 2 "v2" fieldIndex fieldValues selector;
  selector ← select_field 3 "v3" fieldIndex fieldValues selector;
  selector ← select_field 4 "v4" fieldIndex fieldValues selector;
  select_field 5 "v5" fieldIndex fieldValues selector.

(** [q := a.newQuery(); for k, v := range selector { q = q.Where(k, "==", v) }] *)
Definition selector_query (env : Env) (selector : gmap string string) : Query :=
  foldl (fun q kv => Where q kv.1 OpEq kv.2) newQuery (range env 0 selector).

Definition RemoveFilteredPolicy (env : Env) (c : Collection) (sec ptype : string)
    (fieldIndex : Z) (fieldValues : list string)
  : option (Result (option Go.error)) :=
  selector ← RemoveFilteredPolicy_selector ptype fieldIndex fieldValues;
  let q := selector_query env selector in
  Some (RunTransaction env c (
    iter ← tx_Documents env c q;
    delete_each env iter)).

(** ** The model-definition store ([model.go]) *)

Section ModelDefinition.

(** [ioutil.ReadFile] and casbin's [model.NewModelFromString]. *)
Variable ReadFile : string -> Go.error + string.
Variable NewModelFromString : string -> Go.error + Model.

(** [CasbinModelConf{text}] as a document. *)
Definition confDoc (text : string) : DocData := <["text" := VString text]> ∅.

Definition SaveModelWithConfig (env : Env) (c : Collection) (path_ : string)
  : Result (option Go.error) :=
  match ReadFile path_ with
  | inl err => mkResult (Some err) c []
  | inr text =>
      match NewModelFromString text with
      | inl err => mkResult (Some err) c []
      | inr _ =>
          RunTransaction env c (tx_Set env "conf" (confDoc text))
      end
  end.

End ModelDefinition.

(** A run in which nothing fails, every order is the one of the model's
    lists, and [NewDoc] draws "doc0", "doc1", ... *)
Definition quiet : Env :=
  mkEnv (fun _ => []) [] (fun i => "doc" +:+ pretty i) None (fun _ => None) None.

(** A model with the policy type "p" in section "p" and the role type "g"
    in section "g", and no rules. *)
Definition sample_model : Model :=
  <["p" := <["p" := mkAssertion []]> ∅]> (<["g" := <["g" := mkAssertion []]> ∅]> ∅).

(** ** The vocabulary of the specification *)

(** The name of the [k]-th value field ("field k" in the specification, the
    tag [vk] in the store). *)
Definition field_name (k : Z) : string :=
  match k with
  | 0%Z => "v0" | 1%Z => "v1" | 2%Z => "v2"
  | 3%Z => "v3" | 4%Z => "v4" | 5%Z => "v5"
  | _ => ""
  end.

(** The filter window, as the specification words it: position [k] is
    constrained to [v] when it lies in
    [[fieldIndex, fieldIndex + len(fieldValues))] and the value supplied for
    it, [fieldValues[k - fieldIndex]], is [v] and is not empty. *)
Definition constrains (fieldIndex : Z) (fieldValues : list string) (k : Z) (v : string)
  : Prop :=
  (fieldIndex ≤ k < fieldIndex + Go.len fieldValues)%Z
  ∧ fieldValues !! Z.to_nat (k - fieldIndex) = Some v
  ∧ v ≠ "".

(** The constraint the window puts on position [k], if any. *)
Definition chosen (fieldIndex : Z) (fieldValues : list string) (k : Z) : option string :=
  if decide (fieldIndex ≤ k < fieldIndex + Go.len fieldValues)%Z then
    v ← fieldValues !! Z.to_nat (k - fieldIndex);
    if decide (v ≠ "") then Some v else None
  else None.

(** Adding an optional constraint to a selector. *)
Definition put (name : string) (o : option string) (selector : gmap string string)
  : gmap string string :=
  match o with
  | Some v => <[name := v]> selector
  | None => selector
  end.

(** A record that carries a policy type: its type field holds a non-empty
    string. *)
Definition has_type (d : DocData) : Prop :=
  ∃ s, d !! "p_type" = Some (VString s) ∧ s ≠ "".

(** A field of a stored record holds the string [s]. *)
Definition field_is (d : DocData) (name s : string) : Prop :=
  d !! name = Some (VString s).

(** The stored record set: the records some document of the collection
    holds, whatever its identifier and however many hold it. *)
Definition records (c : Collection) (d : DocData) : Prop :=
  ∃ id, c !! id = Some d.

Definition same_records (c1 c2 : Collection) : Prop :=
  ∀ d, records c1 d ↔ records c2 d.

(** A run in which the transport does not fail. *)
Definition no_faults (env : Env) : Prop :=
  iter_fault env = None
  ∧ (∀ w, write_fault env w = None)
  ∧ commit_fault env = None.

(** Deleting, then creating, in one go. *)
Definition delete_all (ids : list string) (c : Collection) : Collection :=
  foldl (fun c id => delete id c) c ids.

Definition create_all (news : list (string * DocData)) (c : Collection) : Collection :=
  foldl (fun c kv => <[kv.1 := kv.2]> c) c news.

(** What is left of a collection once the documents a query selects are
    gone. *)
Definition kept (q : Query) (c : Collection) : Collection :=
  filter (fun kv => ¬ matches q kv.2) c.

(** The writes that delete the given documents, and those that create the
    given ones. *)
Definition deletions (docs : list DocumentSnapshot) : list Write :=
  (fun s => WDelete (Ref s)) <$> docs.

Definition creations (news : list (string * DocData)) : list Write :=
  (fun kv => WCreate kv.1 kv.2) <$> news.

(** The identifiers [NewDoc] draws for [n] consecutive calls, the first
    being call number [i]. *)
Definition drawn_ids (env : Env) (i n : nat) : list string :=
  new_id env <$> seq i n.

(** The documents a run creates for the given lines. *)
Definition new_docs (env : Env) (i : nat) (lines : list CasbinRule)
  : list (string * DocData) :=
  zip (drawn_ids env i (length lines)) (toDoc <$> lines).

(** The lines of a section: one per rule of every policy type. *)
Definition section_rules (am : AssertionMap) : list CasbinRule :=
  '(ptype, ast) ← map_to_list am; savePolicyLine ptype <$> Policy ast.

(** The lines of a model, as the specification words them: one per rule of
    every policy type of the sections "p" and "g". *)
Definition encoded_rules (model : Model) : list CasbinRule :=
  section_rules (default ∅ (model !! "p")) ++ section_rules (default ∅ (model !! "g")).

(** casbin's [ClearPolicy]: the "empty model" that has the policy types of
    [model] and no rule ([ast.Policy = nil] for every assertion of the
    sections "p" and "g"). *)
Definition ClearPolicy (model : Model) : Model :=
  let clear (am : AssertionMap) : AssertionMap := (fun _ => mkAssertion []) <$> am in
  alter clear "g" (alter clear "p" model).

(** The convention of the specification: a policy type belongs to the
    section its first character names. *)
Definition well_sectioned (model : Model) : Prop :=
  ∀ sec (am : AssertionMap) key ast,
    sec ∈ ["p"; "g"] → model !! sec = Some am → am !! key = Some ast →
    section_of key = sec.

(** A rule the record can hold: at most six fields, none of them empty. *)
Definition encodable (rule : list string) : Prop :=
  (length rule ≤ 6)%nat ∧ Forall (fun x => x ≠ "") rule.

(** Every rule of the sections "p" and "g" is one. *)
Definition rules_encodable (model : Model) : Prop :=
  ∀ sec (am : AssertionMap) key ast,
    sec ∈ ["p"; "g"] → model !! sec = Some am → am !! key = Some ast →
    Forall encodable (Policy ast).

(** What [DataTo] decodes a document to, when it succeeds. *)
Definition decoded (d : DocData) : CasbinRule :=
  match DataTo d with
  | inr line => line
  | inl _ => mkCasbinRule "" "" "" "" "" "" ""
  end.

(** The section and type under which a record is filed. *)
Definition filed_under (sec key : string) (line : CasbinRule) : Prop :=
  section_of (PType line) = sec ∧ PType line = key.

#[global] Instance filed_under_dec sec key line : Decision (filed_under sec key line).
Proof. unfold filed_under. apply _. Defined.

(** The records [RemovePolicy] is after: the type of the encoded line, which
    must not be empty, and its fields 0 to 4. *)
Definition RemovePolicy_hit (line : CasbinRule) (d : DocData) : Prop :=
  PType line ≠ ""
  ∧ field_is d "p_type" (PType line)
  ∧ field_is d "v0" (V0 line)
  ∧ field_is d "v1" (V1 line)
  ∧ field_is d "v2" (V2 line)
  ∧ field_is d "v3" (V3 line)
  ∧ field_is d "v4" (V4 line).

(** The constraint [newQuery] puts on every query: the type is strictly
    greater than the empty string. *)
Definition type_guard : Filter := mkFilter "p_type" OpGt "".

(** The equality constraints of a query, and its other constraints. *)
Definition equalities (q : Query) : list (string * string) :=
  omap (fun f => match op f with OpEq => Some (path f, operand f) | OpGt => None end) q.

Definition inequalities (q : Query) : list Filter :=
  filter (fun f => op f = OpGt) q.

(** ** The rest of the repository *)

(** *** [Config.go] *)

Definition defaultCollectionName : string := "casbin".

(** [Config]; its one field is called [Collection] in the source. *)
Record Config := mkConfig {
  Collection_name : string
}.

Definition collectionName (c : Config) : string :=
  if decide (Collection_name c ≠ "") then Collection_name c
  else defaultCollectionName.

(** [adapter]: the client and the name of the collection.  (The finalizer
    that [NewAdapterWithConfig] registers closes the client when the adapter
    is collected; it has no part in what the adapter computes.) *)
Record adapter (Client : Type) := mkAdapter {
  client : Client;
  collection : string
}.
#[global] Arguments mkAdapter {Client} _ _.
#[global] Arguments client {Client} _.
#[global] Arguments collection {Client} _.

Definition NewAdapterWithConfig {Client} (db : Client) (config : Config)
  : adapter Client :=
  mkAdapter db (collectionName config).

Definition NewAdapter {Client} (db : Client) : adapter Client :=
  NewAdapterWithConfig db (mkConfig defaultCollectionName).

(** *** Loading the model definition ([model.go]) *)

(** [ref.Get(ctx)], outside any transaction: the transport may fail, and a
    document that does not exist is an error ([NotFound]). *)
Definition Get (fault : option Go.error) (c : Collection) (id : string)
  : Go.error + DocumentSnapshot :=
  match fault with
  | Some err => inl err
  | None =>
      match c !! id with
      | Some d => inr (mkSnapshot id d)
      | None => inl ("rpc error: code = NotFound desc = " +:+ id +:+ " not found")
      end
  end.

Section ModelLoading.

Variable NewModelFromString : string -> Go.error + Model.

(** [docsnap.DataTo(&conf)] for [CasbinModelConf]. *)
Definition DataTo_conf (d : DocData) : Go.error + string := string_field d "text".

Definition LoadModelWithConfig (fault : option Go.error) (c : Collection)
  : Go.error + Model :=
  match Get fault c "conf" with
  | inl err => inl err
  | inr docsnap =>
      match DataTo_conf (Data docsnap) with
      | inl err => inl err
      | inr text => NewModelFromString text
      end
  end.

End ModelLoading.

(** *** The comparison the tests use ([adapter_test.go]) *)

(** [strings.Join(v, ",")] *)
Definition Join (v : list string) : string := String.concat "," v.

(** The second loop of [SamePolicy]: [None] is the early [return false]. *)
Fixpoint mark_seen (b : list (list string)) (diff : gmap string bool)
  : option (gmap string bool) :=
  match b with
  | [] => Some diff
  | v :: rest =>
      let key := Join v in
      match diff !! key with
      | None => None
      | Some _ => mark_seen rest (<[key := true]> diff)
      end
  end.

(** [SamePolicy]: the first loop enters every rule of [a] as not seen, the
    second marks the rules of [b], the third looks for a rule left
    unmarked. *)
Definition SamePolicy (env : Env) (a b : list (list string)) : bool :=
  let diff : gmap string bool :=
    foldl (fun diff v => <[Join v := false]> diff) ∅ a in
  match mark_seen b diff with
  | None => false
  | Some diff => forallb (fun kv => kv.2) (range env 0 diff)
  end.

(** ** More vocabulary *)

(** What is left of a rule once it has been through a record: its first six
    fields, cut in front of the first empty one. *)
Definition stored_rule (rule : list string) : list string :=
  longest_nonempty_prefix (take 6 rule).

(** The records [RemoveFilteredPolicy] is after: the type, which must not be
    empty, and the value of every constrained position. *)
Definition RemoveFilteredPolicy_hit (ptype : string) (fieldIndex : Z)
    (fieldValues : list string) (d : DocData) : Prop :=
  ptype ≠ ""
  ∧ field_is d "p_type" ptype
  ∧ ∀ k v, (0 ≤ k ≤ 5)%Z → constrains fieldIndex fieldValues k v →
      field_is d (field_name k) v.

(** The rules of a model that is loaded by appending [rules] in order. *)
Definition loaded (model : Model) (rules : list CasbinRule) (model' : Model) : Prop :=
  ∀ s k, policy_at model' s k
         = policy_at model s k ++ (line_tokens <$> filter (filed_under s k) rules).

(** The model holds the policy type of a record. *)
Definition knows (model : Model) (line : CasbinRule) : Prop :=
  is_Some (assertion_at model (section_of (PType line)) (PType line)).

(** Every record of the collection that has a type is one the adapter
    wrote: the seven fields of some [CasbinRule], as strings. *)
Definition adapter_written (c : Collection) : Prop :=
  ∀ id d, c !! id = Some d → has_type d → ∃ line, d = toDoc line.

(** * Properties *)

(** ** The record codec *)

Section Codec.

Implicit Types (line : CasbinRule) (model : Model) (rule : list string).

Lemma slice_to_1 (key : string) :
  key ≠ "" → Go.slice_to 1 key = Some (section_of key).
Proof.
  intros Hne. destruct key as [|c s]; [congruence|].
  unfold Go.slice_to. rewrite decide_True by (simpl; lia).
  simpl. by destruct s.
Qed.

Lemma slice_to_1_empty : Go.slice_to 1 "" = None.
Proof. reflexivity. Qed.

(** The chain of [if]/[goto] computes the longest non-empty prefix. *)
Lemma line_tokens_longest_prefix line :
  line_tokens line = longest_nonempty_prefix (fields line).
Proof.
  destruct line as [t a b c d e f]; unfold line_tokens, fields; simpl.
  repeat (case_decide; simplify_eq; simpl; try done).
Qed.

Lemma longest_nonempty_prefix_prefix (l : list string) :
  longest_nonempty_prefix l `prefix_of` l.
Proof.
  induction l as [|x l IH]; simpl; [done|].
  case_decide; [apply prefix_nil|by apply prefix_cons].
Qed.

Lemma longest_nonempty_prefix_nonempty (l : list string) :
  Forall (fun x => x ≠ "") (longest_nonempty_prefix l).
Proof.
  induction l as [|x l IH]; simpl; [constructor|].
  case_decide; by constructor.
Qed.

(** The scan stops only at the end of the list or in front of an empty
    field. *)
Lemma longest_nonempty_prefix_stop (l : list string) :
  l !! length (longest_nonempty_prefix l) = None
  ∨ l !! length (longest_nonempty_prefix l) = Some "".
Proof.
  induction l as [|x l IH]; simpl; [by left|].
  case_decide; simplify_eq; simpl; [by right|done].
Qed.

Lemma longest_nonempty_prefix_id (l : list string) :
  Forall (fun x => x ≠ "") l → longest_nonempty_prefix l = l.
Proof.
  induction 1 as [|x l Hx _ IH]; simpl; [done|].
  case_decide; [done|by rewrite IH].
Qed.

Lemma longest_nonempty_prefix_app_empty (l l' : list string) :
  Forall (fun x => x ≠ "") l →
  longest_nonempty_prefix (l ++ "" :: l') = l.
Proof.
  induction 1 as [|x l Hx _ IH]; simpl; [done|].
  case_decide; [done|by rewrite IH].
Qed.

(** Appending under one section and type leaves every other assertion
    alone. *)
Lemma append_policy_Some model sec key tokens ast :
  assertion_at model sec key = Some ast →
  ∃ model', append_policy model sec key tokens = Some model'
    ∧ assertion_at model' sec key = Some {| Policy := Policy ast ++ [tokens] |}
    ∧ ∀ s k, (s, k) ≠ (sec, key) → assertion_at model' s k = assertion_at model s k.
Proof.
  unfold assertion_at, append_policy. intros H.
  destruct (model !! sec) as [am|] eqn:Hs; simpl in H; [|done].
  rewrite H. eexists; split; [done|]. split.
  - rewrite lookup_insert_eq; simpl. by rewrite lookup_insert_eq.
  - intros s k Hne. destruct (decide (s = sec)) as [->|Hs'].
    + rewrite lookup_insert_eq, Hs; simpl.
      rewrite lookup_insert_ne; [done|congruence].
    + by rewrite lookup_insert_ne.
Qed.

Lemma append_policy_None model sec key tokens :
  assertion_at model sec key = None → append_policy model sec key tokens = None.
Proof.
  unfold assertion_at, append_policy.
  destruct (model !! sec) as [am|]; simpl; [|done]. by intros ->.
Qed.

Lemma loadPolicyLine_Some line model ast :
  PType line ≠ "" →
  assertion_at model (section_of (PType line)) (PType line) = Some ast →
  ∃ model', loadPolicyLine line model = Some model'
    ∧ assertion_at model' (section_of (PType line)) (PType line)
      = Some {| Policy := Policy ast ++ [longest_nonempty_prefix (fields line)] |}
    ∧ ∀ s k, (s, k) ≠ (section_of (PType line), PType line) →
        assertion_at model' s k = assertion_at model s k.
Proof.
  intros Ht Hast. unfold loadPolicyLine.
  rewrite slice_to_1 by done; simpl.
  rewrite line_tokens_longest_prefix.
  by apply append_policy_Some.
Qed.

(** Encoding a rule of at most six non-empty fields and reading the
    tokens back gives the rule. *)
Lemma line_tokens_savePolicyLine ptype rule :
  (length rule ≤ 6)%nat → Forall (fun x => x ≠ "") rule →
  line_tokens (savePolicyLine ptype rule) = rule.
Proof.
  intros Hlen Hne. rewrite line_tokens_longest_prefix.
  unfold savePolicyLine, fields; simpl.
  do 7 (destruct rule as [|? rule];
        [apply (longest_nonempty_prefix_app_empty _ _ Hne)
          || apply (longest_nonempty_prefix_id _ Hne)|]).
  simpl in Hlen; lia.
Qed.

End Codec.

(** ** The filter planner *)

Section Planner.

Implicit Types (fieldIndex k : Z) (fieldValues : list string)
  (selector : gmap string string).

Lemma wrap_small (z : Z) : Go.is_int z → Go.wrap z = z.
Proof.
  unfold Go.is_int, Go.wrap, Go.min_int, Go.max_int. intros.
  rewrite Z.mod_small; lia.
Qed.

Lemma chosen_constrains fieldIndex fieldValues k v :
  chosen fieldIndex fieldValues k = Some v ↔ constrains fieldIndex fieldValues k v.
Proof.
  unfold chosen, constrains. case_decide as Hw.
  - destruct (fieldValues !! Z.to_nat (k - fieldIndex)) as [w|]; simpl.
    + case_decide as Hne; split.
      * by intros [= <-].
      * by intros (_ & [= <-] & _).
      * done.
      * intros (_ & [= <-] & Hv). by destruct Hne.
    + split; [done|]. by intros (_ & ? & _).
  - split; [done|]. by intros [? _].
Qed.

Lemma lookup_put name o selector (f : string) :
  put name o selector !! f
  = if decide (name = f) then
      match o with Some v => Some v | None => selector !! f end
    else selector !! f.
Proof.
  destruct o as [v|]; simpl.
  - rewrite lookup_insert. by case_decide.
  - by case_decide.
Qed.

(** One block never panics: inside the window the index is in range, and
    no sum or difference it computes overflows. *)
Lemma select_field_put k name fieldIndex fieldValues selector :
  Go.is_int fieldIndex →
  (Go.len fieldValues < Go.max_slice_len)%Z →
  (0 ≤ k ≤ 5)%Z →
  select_field k name fieldIndex fieldValues selector
  = Some (put name (chosen fieldIndex fieldValues k) selector).
Proof.
  unfold Go.is_int, Go.min_int, Go.max_int, Go.max_slice_len, Go.len.
  intros Hi Hl Hk. unfold select_field, chosen, Go.add, Go.sub, Go.len.
  destruct (fieldIndex <=? k)%Z eqn:Hle; simpl.
  - apply Z.leb_le in Hle.
    rewrite (wrap_small (fieldIndex + _))
      by (unfold Go.is_int, Go.min_int, Go.max_int; lia).
    destruct (k <? _)%Z eqn:Hlt.
    + apply Z.ltb_lt in Hlt. rewrite decide_True by lia.
      rewrite wrap_small by (unfold Go.is_int, Go.min_int, Go.max_int; lia).
      unfold Go.index. destruct (k - fieldIndex <? 0)%Z eqn:Hneg;
        [apply Z.ltb_lt in Hneg; lia|].
      destruct (lookup_lt_is_Some_2 fieldValues (Z.to_nat (k - fieldIndex)))
        as [v Hv]; [lia|].
      rewrite Hv; simpl. by case_decide.
    + apply Z.ltb_ge in Hlt. by rewrite decide_False by lia.
  - apply Z.leb_gt in Hle. by rewrite decide_False by lia.
Qed.

Lemma RemoveFilteredPolicy_selector_puts ptype fieldIndex fieldValues :
  Go.is_int fieldIndex →
  (Go.len fieldValues < Go.max_slice_len)%Z →
  RemoveFilteredPolicy_selector ptype fieldIndex fieldValues
  = Some (put "v5" (chosen fieldIndex fieldValues 5)
         (put "v4" (chosen fieldIndex fieldValues 4)
         (put "v3" (chosen fieldIndex fieldValues 3)
         (put "v2" (chosen fieldIndex fieldValues 2)
         (put "v1" (chosen fieldIndex fieldValues 1)
         (put "v0" (chosen fieldIndex fieldValues 0)
         (<["p_type" := ptype]> ∅))))))).
Proof.
  intros Hi Hl. unfold RemoveFilteredPolicy_selector.
  repeat (rewrite select_field_put by (done || lia); simpl).
  done.
Qed.

Lemma field_name_cases k :
  (0 ≤ k ≤ 5)%Z → k = 0%Z ∨ k = 1%Z ∨ k = 2%Z ∨ k = 3%Z ∨ k = 4%Z ∨ k = 5%Z.
Proof. lia. Qed.

(** The selector holds the type and exactly the constraints of the
    window. *)
Lemma RemoveFilteredPolicy_selector_lookup ptype fieldIndex fieldValues :
  Go.is_int fieldIndex →
  (Go.len fieldValues < Go.max_slice_len)%Z →
  ∃ selector,
    RemoveFilteredPolicy_selector ptype fieldIndex fieldValues = Some selector
    ∧ ∀ name v,
        selector !! name = Some v ↔
          (name = "p_type" ∧ v = ptype)
          ∨ ∃ k, (0 ≤ k ≤ 5)%Z ∧ name = field_name k
                 ∧ constrains fieldIndex fieldValues k v.
Proof.
  intros Hi Hl. eexists; split;
    [by apply RemoveFilteredPolicy_selector_puts|].
  intros name v. rewrite !lookup_put, lookup_insert, lookup_empty.
  split.
  - repeat case_decide; subst; try done; intros Hsel.
    all: try (left; by simplify_eq).
    all: destruct (chosen fieldIndex fieldValues _) as [w|] eqn:Hc in Hsel;
      [|done]; injection Hsel as ->; apply chosen_constrains in Hc; right.
    all: first [ exists 0%Z; split; [lia|split; [reflexivity|exact Hc]]
               | exists 1%Z; split; [lia|split; [reflexivity|exact Hc]]
               | exists 2%Z; split; [lia|split; [reflexivity|exact Hc]]
               | exists 3%Z; split; [lia|split; [reflexivity|exact Hc]]
               | exists 4%Z; split; [lia|split; [reflexivity|exact Hc]]
               | exists 5%Z; split; [lia|split; [reflexivity|exact Hc]] ].
  - intros [[-> ->]|(k & Hk & Hn & Hc)]; [|subst name].
    + by repeat (case_decide; [done|]).
    + apply chosen_constrains in Hc.
      destruct (field_name_cases k Hk) as [-> | [-> | [-> | [-> | [-> | ->]]]]];
        simpl; repeat (case_decide; try done); by rewrite Hc.
Qed.

End Planner.

(** ** The store *)

Section Store.

Implicit Types (env : Env) (c : Collection) (q : Query) (d : DocData)
  (log : list Event) (ws : list Write) (s : DocumentSnapshot).

(** *** Orders *)

Lemma arrange_Permutation {A} (seed : list nat) (l : list A) :
  arrange seed l ≡ₚ l.
Proof.
  revert l; induction seed as [|n seed IH]; intros l; simpl; [done|].
  destruct (l !! (n mod length l)%nat) as [x|] eqn:Hx; [|done].
  rewrite IH. symmetry. by apply delete_Permutation.
Qed.

Lemma range_Permutation {A} env n (m : gmap string A) :
  range env n m ≡ₚ map_to_list m.
Proof. apply arrange_Permutation. Qed.

(** *** Queries *)

Lemma ltb_empty (s : string) : String.ltb "" s = true ↔ s ≠ "".
Proof. destruct s; simpl; split; (done || congruence). Qed.

Lemma matches_Where q p o v d :
  matches (Where q p o v) d = (matches q d && holds (mkFilter p o v) d)%bool.
Proof.
  unfold matches, Where. rewrite forallb_app; simpl. by rewrite andb_true_r.
Qed.

Lemma holds_eq p v d : holds (mkFilter p OpEq v) d ↔ field_is d p v.
Proof.
  unfold holds, field_is; simpl. destruct (d !! p) as [[s|n]|]; simpl.
  - rewrite Is_true_true, String.eqb_eq. split; congruence.
  - split; [done|congruence].
  - split; [done|congruence].
Qed.

Lemma matches_newQuery d : matches newQuery d ↔ has_type d.
Proof.
  unfold newQuery, has_type. rewrite matches_Where; simpl.
  unfold holds; simpl. destruct (d !! "p_type") as [[s|n]|]; simpl.
  - rewrite Is_true_true, ltb_empty. split; [eauto|].
    by intros (? & [= <-] & ?).
  - split; [done|]. by intros (? & ? & _).
  - split; [done|]. by intros (? & ? & _).
Qed.

Lemma matches_elem q d f : matches q d → f ∈ q → holds f d.
Proof.
  unfold matches. rewrite Is_true_true, forallb_forall.
  intros H Hf. apply Is_true_true, H. by apply list_elem_of_In.
Qed.

Lemma elem_of_snapshots c s : s ∈ snapshots c ↔ c !! Ref s = Some (Data s).
Proof.
  unfold snapshots. rewrite list_elem_of_fmap. split.
  - intros ([id d] & -> & Hin). by apply elem_of_map_to_list in Hin.
  - intros H. exists (Ref s, Data s). split; [by destruct s|].
    by apply elem_of_map_to_list.
Qed.

Lemma elem_of_matching q c s :
  s ∈ matching q c ↔ c !! Ref s = Some (Data s) ∧ matches q (Data s).
Proof.
  unfold matching. rewrite list_elem_of_filter, elem_of_snapshots. tauto.
Qed.

Lemma elem_of_Ref_matching q c id :
  id ∈ Ref <$> matching q c ↔ ∃ d, c !! id = Some d ∧ matches q d.
Proof.
  rewrite list_elem_of_fmap. split.
  - intros (s & -> & Hs). apply elem_of_matching in Hs. eauto.
  - intros (d & Hc & Hm). exists (mkSnapshot id d). split; [done|].
    by apply elem_of_matching.
Qed.

(** Whatever the iterator yields is a document of the collection that
    the query selects. *)
Lemma Documents_inr env q c s :
  inr s ∈ Documents env q c → c !! Ref s = Some (Data s) ∧ matches q (Data s).
Proof.
  unfold Documents. intros Hin. apply elem_of_matching.
  rewrite <- (arrange_Permutation (stream_seed env)).
  destruct (iter_fault env) as [[n e]|].
  - apply elem_of_app in Hin as [Hin|Hin].
    + apply list_elem_of_fmap in Hin as (s' & [= <-] & Hin).
      by eapply subseteq_take.
    + by apply list_elem_of_singleton in Hin.
  - by apply list_elem_of_fmap in Hin as (s' & [= <-] & Hin).
Qed.

(** An iterator that ran to [Done] without an error has streamed every
    selected document. *)
Lemma Documents_all_inr env q c (docs : list DocumentSnapshot) :
  Documents env q c = inr <$> docs → docs ≡ₚ matching q c.
Proof.
  unfold Documents. destruct (iter_fault env) as [[n e]|]; intros H.
  - assert (Hin : inl e ∈ (inr <$> docs : list (Go.error + DocumentSnapshot))).
    { rewrite <- H. apply elem_of_app. right. by apply list_elem_of_singleton. }
    by apply list_elem_of_fmap in Hin as (? & ? & _).
  - apply (inj (fmap inr)) in H. rewrite <- H. apply arrange_Permutation.
Qed.

Lemma Documents_no_fault env q c :
  iter_fault env = None →
  Documents env q c = inr <$> arrange (stream_seed env) (matching q c).
Proof. unfold Documents. by intros ->. Qed.

End Store.

(** ** Transactions *)

Section Transactions.

Implicit Types (env : Env) (c : Collection) (q : Query) (d : DocData)
  (log : list Event) (ws : list Write) (ids : list string)
  (news : list (string * DocData)).

(** *** Logs *)

Lemma buffered_app log log' : buffered (log ++ log') = buffered log ++ buffered log'.
Proof. apply omap_app. Qed.

Lemma queries_app log log' : queries (log ++ log') = queries log ++ queries log'.
Proof. apply omap_app. Qed.

Lemma transactions_app log log' :
  transactions (log ++ log') = (transactions log + transactions log')%nat.
Proof. unfold transactions. by rewrite omap_app, length_app. Qed.

Lemma buffered_writes ws : buffered (EvWrite <$> ws) = ws.
Proof.
  induction ws as [|w ws IH]; [done|]. simpl. f_equal. exact IH.
Qed.

Lemma queries_writes ws : queries (EvWrite <$> ws) = [].
Proof. induction ws as [|w ws IH]; simpl; done. Qed.

Lemma transactions_writes ws : transactions (EvWrite <$> ws) = 0%nat.
Proof. induction ws as [|w ws IH]; simpl; done. Qed.

Lemma tx_bind_unfold {A B} (m : Tx A) (f : A → Tx B) log :
  (m ≫= f) log
  = match m log with
    | (inl e, log') => (inl e, log')
    | (inr a, log') => f a log'
    end.
Proof. reflexivity. Qed.

(** *** The deleting loop *)

(** The loop buffers deletions of streamed documents only, and it ends
    without an error only if the whole stream was deleted. *)
Lemma delete_each_log env (items : list (Go.error + DocumentSnapshot)) log :
  ∃ docs,
    (delete_each env items log).2 = log ++ (EvWrite <$> deletions docs)
    ∧ (∀ s, s ∈ docs → inr s ∈ items)
    ∧ ((delete_each env items log).1 = inr tt → items = inr <$> docs).
Proof.
  revert log; induction items as [|[e|s] items IH]; intros log.
  - exists []; simpl. rewrite app_nil_r. split; [done|]. split; [|done].
    intros ? Hs; by apply elem_of_nil in Hs.
  - exists []; simpl. rewrite app_nil_r. split; [done|]. split; [|done].
    intros ? Hs; by apply elem_of_nil in Hs.
  - simpl. rewrite tx_bind_unfold. unfold tx_Delete, tx_write.
    destruct (write_fault env (WDelete (Ref s))) as [e|].
    + exists []; simpl. rewrite app_nil_r. split; [done|]. split; [|done].
      intros ? Hs; by apply elem_of_nil in Hs.
    + destruct (IH (log ++ [EvWrite (WDelete (Ref s))])) as (docs & Hlog & Hin & Hok).
      exists (s :: docs). rewrite Hlog; simpl. rewrite <- app_assoc.
      split; [done|]. split.
      * intros s' [->|Hs']%elem_of_cons; [left|right; by apply Hin].
      * intros Hr. by rewrite (Hok Hr) at 1.
Qed.

Lemma delete_each_ok env (docs : list DocumentSnapshot) log :
  (∀ w, write_fault env w = None) →
  delete_each env (inr <$> docs) log = (inr tt, log ++ (EvWrite <$> deletions docs)).
Proof.
  intros Hw. revert log; induction docs as [|s docs IH]; intros log; simpl.
  - by rewrite app_nil_r.
  - rewrite tx_bind_unfold. unfold tx_Delete, tx_write. rewrite Hw.
    rewrite IH. by rewrite <- app_assoc.
Qed.

(** *** The creating loop *)

Lemma new_docs_cons env i line (lines : list CasbinRule) :
  new_docs env i (line :: lines) = (new_id env i, toDoc line) :: new_docs env (S i) lines.
Proof. reflexivity. Qed.

Lemma create_each_log env (lines : list CasbinRule) i log :
  ∃ news,
    (create_each env lines i log).2 = log ++ (EvWrite <$> creations news)
    ∧ news `prefix_of` new_docs env i lines
    ∧ ((create_each env lines i log).1 = inr tt → news = new_docs env i lines).
Proof.
  revert i log; induction lines as [|line lines IH]; intros i log.
  - exists []; simpl. by rewrite app_nil_r.
  - cbn [create_each]. rewrite tx_bind_unfold. unfold tx_Create, tx_write.
    destruct (write_fault env _) as [e|].
    + exists []; simpl. rewrite app_nil_r. split; [done|].
      split; [apply prefix_nil|done].
    + destruct (IH (S i) (log ++ [EvWrite (WCreate (new_id env i) (toDoc line))]))
        as (news & Hlog & Hpre & Hok).
      exists ((new_id env i, toDoc line) :: news). rewrite Hlog; simpl.
      rewrite <- app_assoc, new_docs_cons. split; [done|].
      split; [by apply prefix_cons|].
      intros Hr. by rewrite (Hok Hr).
Qed.

Lemma create_each_ok env (lines : list CasbinRule) i log :
  (∀ w, write_fault env w = None) →
  create_each env lines i log
  = (inr tt, log ++ (EvWrite <$> creations (new_docs env i lines))).
Proof.
  intros Hw. revert i log; induction lines as [|line lines IH]; intros i log.
  - simpl. by rewrite app_nil_r.
  - cbn [create_each]. rewrite tx_bind_unfold. unfold tx_Create, tx_write.
    rewrite Hw, IH, new_docs_cons. simpl. by rewrite <- app_assoc.
Qed.

(** *** The commit *)

Lemma apply_writes_app ws ws' c :
  apply_writes (ws ++ ws') c
  = match apply_writes ws c with
    | inl e => inl e
    | inr c' => apply_writes ws' c'
    end.
Proof.
  revert c; induction ws as [|w ws IH]; intros c; simpl; [done|].
  by destruct (apply_write w c).
Qed.

Lemma apply_writes_deletions (docs : list DocumentSnapshot) c :
  apply_writes (deletions docs) c = inr (delete_all (Ref <$> docs) c).
Proof.
  revert c; induction docs as [|s docs IH]; intros c; simpl; [done|].
  apply IH.
Qed.

Lemma lookup_delete_all ids c (i : string) :
  delete_all ids c !! i = if decide (i ∈ ids) then None else c !! i.
Proof.
  revert c; induction ids as [|id ids IH]; intros c; simpl.
  - done.
  - rewrite IH. destruct (decide (i ∈ ids)) as [Hin|Hin].
    + rewrite decide_True; [done|]. by right.
    + destruct (decide (i = id)) as [->|Hne].
      * rewrite decide_True by left. apply lookup_delete_eq.
      * rewrite decide_False by (by intros [?|?]%elem_of_cons).
        by apply lookup_delete_ne.
Qed.

(** Deleting the documents a query selects leaves the others. *)
Lemma delete_all_matching q c (docs : list DocumentSnapshot) :
  docs ≡ₚ matching q c →
  delete_all (Ref <$> docs) c = kept q c.
Proof.
  intros Hp. unfold kept. apply map_eq; intros i. rewrite lookup_delete_all.
  case_decide as Hin.
  - rewrite Hp in Hin. apply elem_of_Ref_matching in Hin as (d & Hd & Hm).
    symmetry. apply map_lookup_filter_None. right.
    intros d' Hd'; simpl. intros Hn. apply Hn. congruence.
  - rewrite Hp in Hin.
    destruct (c !! i) as [d|] eqn:Hd.
    + symmetry. apply map_lookup_filter_Some. split; [done|]; simpl.
      intros Hm. apply Hin, elem_of_Ref_matching. eauto.
    + symmetry. apply map_lookup_filter_None. by left.
Qed.

Lemma apply_writes_creations_inr news c c' :
  apply_writes (creations news) c = inr c' →
  c' = create_all news c
  ∧ NoDup news.*1
  ∧ ∀ id, id ∈ news.*1 → c !! id = None.
Proof.
  revert c; induction news as [|[id d] news IH]; intros c; simpl.
  - intros [= <-]. repeat split; [constructor|].
    intros id Hid; by apply elem_of_nil in Hid.
  - destruct (c !! id) as [d'|] eqn:Hid; [done|].
    intros H. destruct (IH _ H) as (-> & Hnd & Hfresh).
    assert (Hnin : id ∉ news.*1).
    { intros Hin. specialize (Hfresh _ Hin). by rewrite lookup_insert_eq in Hfresh. }
    repeat split; [by constructor|].
    intros id' [->|Hin]%elem_of_cons; [done|].
    specialize (Hfresh _ Hin). rewrite lookup_insert_ne in Hfresh; [done|].
    intros ->; done.
Qed.

Lemma apply_writes_creations_ok news c :
  NoDup news.*1 → (∀ id, id ∈ news.*1 → c !! id = None) →
  apply_writes (creations news) c = inr (create_all news c).
Proof.
  revert c; induction news as [|[id d] news IH]; intros c; simpl; [done|].
  intros [Hnin Hnd]%NoDup_cons Hfresh.
  rewrite Hfresh by left. apply IH; [done|].
  intros id' Hin. rewrite lookup_insert_ne; [apply Hfresh; by right|].
  intros ->; done.
Qed.

Lemma lookup_create_all news c (i : string) d :
  NoDup news.*1 →
  create_all news c !! i = Some d
  ↔ ((i, d) ∈ news) ∨ ((i ∉ news.*1) ∧ c !! i = Some d).
Proof.
  revert c; induction news as [|[id d'] news IH]; intros c; simpl.
  - intros _. split; [intros H; right; split; [apply not_elem_of_nil|done]|].
    intros [H|[_ H]]; [by apply elem_of_nil in H|done].
  - intros [Hnin Hnd]%NoDup_cons. rewrite (IH _ Hnd). split.
    + intros [Hin|[Hni Hl]]; [left; by right|].
      destruct (decide (i = id)) as [->|Hne].
      * rewrite lookup_insert_eq in Hl. injection Hl as ->. left; left.
      * rewrite lookup_insert_ne in Hl by done. right. split; [|done].
        by intros [?|?]%elem_of_cons.
    + intros [[[= -> ->]|Hin]%elem_of_cons|[Hni Hl]].
      * right. split; [done|]. apply lookup_insert_eq.
      * by left.
      * right. apply not_elem_of_cons in Hni as [Hne Hni]. split; [done|].
        by rewrite lookup_insert_ne.
Qed.

(** A commit cannot touch a document that no buffered write deletes or
    overwrites: creating over it is refused. *)
Lemma apply_writes_preserves ws c c' (id : string) d :
  c !! id = Some d →
  WDelete id ∉ ws → (∀ d', WSet id d' ∉ ws) →
  apply_writes ws c = inr c' →
  c' !! id = Some d.
Proof.
  revert c; induction ws as [|w ws IH]; intros c Hd Hdel Hset; simpl.
  - by intros [= <-].
  - apply not_elem_of_cons in Hdel as [Hw Hdel].
    assert (Hset' : ∀ d', WSet id d' ∉ ws).
    { intros d' Hin. apply (Hset d'). by right. }
    destruct w as [id'|id' d'|id' d']; simpl.
    + apply IH; [|done..]. rewrite lookup_delete_ne; [done|congruence].
    + destruct (c !! id') as [?|] eqn:Hid'; [done|].
      apply IH; [|done..]. rewrite lookup_insert_ne; [done|congruence].
    + apply IH; [|done..]. rewrite lookup_insert_ne; [done|].
      intros ->. apply (Hset d'). left.
Qed.

End Transactions.

(** ** The transaction every mutating operation runs *)

Section Replace.

Implicit Types (env : Env) (c : Collection) (q : Query)
  (lines : list CasbinRule) (body : Tx unit).

Lemma lookup_kept_Some q c (id : string) (d : DocData) :
  kept q c !! id = Some d ↔ c !! id = Some d ∧ ¬ matches q d.
Proof. unfold kept. by rewrite map_lookup_filter_Some. Qed.

Lemma RunTransaction_trace env c body :
  trace (RunTransaction env c body) = (body [EvTransaction]).2.
Proof.
  unfold RunTransaction. destruct (body _) as [[e|[]] log]; simpl; [done|].
  destruct (commit_fault env); [done|]. by destruct (apply_writes _ c).
Qed.

(** All or nothing: a failed run leaves the collection as it was, a
    successful one has committed every buffered write. *)
Lemma RunTransaction_ret env c body :
  match ret (RunTransaction env c body) with
  | Some _ => store (RunTransaction env c body) = c
  | None =>
      (body [EvTransaction]).1 = inr tt
      ∧ apply_writes (buffered (body [EvTransaction]).2) c
        = inr (store (RunTransaction env c body))
  end.
Proof.
  unfold RunTransaction. destruct (body _) as [[e|[]] log]; simpl; [done|].
  destruct (commit_fault env); [done|].
  by destruct (apply_writes _ c) eqn:Hc.
Qed.

Lemma RunTransaction_ok env c body log (c' : Collection) :
  body [EvTransaction] = (inr tt, log) →
  commit_fault env = None →
  apply_writes (buffered log) c = inr c' →
  RunTransaction env c body = mkResult None c' log.
Proof. unfold RunTransaction. by intros -> -> ->. Qed.

Lemma replace_body env c q lines log :
  (iter ← tx_Documents env c q; _ ← delete_each env iter; create_each env lines 0) log
  = match delete_each env (Documents env q c) (log ++ [EvQuery q]) with
    | (inl e, log') => (inl e, log')
    | (inr _, log') => create_each env lines 0 log'
    end.
Proof. reflexivity. Qed.

(** Delete what the query selects, then create the lines: the shape of
    the log, the collection afterwards, and when the run succeeds. *)
Lemma replace_tx env c q lines :
  let r := RunTransaction env c (
             iter ← tx_Documents env c q;
             _ ← delete_each env iter;
             create_each env lines 0) in
  let news := new_docs env 0 lines in
  (∃ docs created,
      trace r = [EvTransaction; EvQuery q]
                ++ (EvWrite <$> deletions docs) ++ (EvWrite <$> creations created)
      ∧ created `prefix_of` news
      ∧ ∀ s, s ∈ docs → c !! Ref s = Some (Data s) ∧ matches q (Data s))
  ∧ match ret r with
    | Some _ => store r = c
    | None =>
        store r = create_all news (kept q c)
        ∧ NoDup news.*1
        ∧ ∀ id, id ∈ news.*1 → kept q c !! id = None
    end
  ∧ (no_faults env → NoDup news.*1 →
     (∀ id, id ∈ news.*1 → kept q c !! id = None) →
     ret r = None).
Proof.
  intros r news; subst r news.
  pose proof (delete_each_log env (Documents env q c) ([EvTransaction] ++ [EvQuery q]))
    as (docs & Hlog & Hin & Hok).
  assert (Hdocs : ∀ s, s ∈ docs → c !! Ref s = Some (Data s) ∧ matches q (Data s)).
  { intros s Hs. by apply (Documents_inr env), Hin. }
  split; [|split].
  - (* the log *)
    rewrite RunTransaction_trace, replace_body.
    destruct (delete_each env _ _) as [[e|[]] log1]; simpl in Hlog; subst log1.
    { exists docs, []. simpl. rewrite app_nil_r.
      split; [done|]. split; [apply prefix_nil|exact Hdocs]. }
    pose proof (create_each_log env lines 0
      (EvTransaction :: EvQuery q :: (EvWrite <$> deletions docs)))
      as (created & Hlog' & Hpre & _).
    exists docs, created. by rewrite Hlog'.
  - (* the collection *)
    pose proof (RunTransaction_ret env c (
      iter ← tx_Documents env c q; _ ← delete_each env iter; create_each env lines 0))
      as Hret.
    destruct (ret _); [done|]. destruct Hret as [Hb Hc]. revert Hb Hc.
    rewrite replace_body.
    destruct (delete_each env _ _) as [[e|[]] log1]; simpl in Hlog, Hok;
      subst log1; [done|].
    pose proof (create_each_log env lines 0
      (EvTransaction :: EvQuery q :: (EvWrite <$> deletions docs)))
      as (created & Hlog' & _ & Hok').
    intros Hb. rewrite Hlog', (Hok' Hb).
    change (EvTransaction :: EvQuery q :: (EvWrite <$> deletions docs))
      with ([EvTransaction; EvQuery q] ++ (EvWrite <$> deletions docs)).
    rewrite !buffered_app, !buffered_writes; simpl.
    rewrite apply_writes_app, apply_writes_deletions.
    rewrite (delete_all_matching q) by (by apply (Documents_all_inr env), Hok).
    intros Hc. apply apply_writes_creations_inr in Hc. by destruct Hc as (-> & ? & ?).
  - (* a run without faults *)
    intros (Hi & Hw & Hc) Hnd Hfresh.
    erewrite RunTransaction_ok; [done| |done|].
    + rewrite replace_body, (Documents_no_fault _ _ _ Hi), (delete_each_ok _ _ _ Hw).
      by rewrite (create_each_ok _ _ _ _ Hw).
    + rewrite !buffered_app, !buffered_writes; simpl.
      rewrite apply_writes_app, apply_writes_deletions.
      rewrite (delete_all_matching q) by apply arrange_Permutation.
      by rewrite (apply_writes_creations_ok _ _ Hnd Hfresh).
Qed.

(** The deleting transactions are the same run with nothing to create. *)
Lemma delete_tx_as_replace env c q :
  RunTransaction env c (iter ← tx_Documents env c q; delete_each env iter)
  = RunTransaction env c (
      iter ← tx_Documents env c q;
      _ ← delete_each env iter;
      create_each env [] 0).
Proof.
  unfold RunTransaction. rewrite replace_body, tx_bind_unfold.
  unfold tx_Documents; simpl.
  by destruct (delete_each env _ _) as [[e|[]] log1].
Qed.

Lemma delete_tx env c q :
  let r := RunTransaction env c (iter ← tx_Documents env c q; delete_each env iter) in
  (∃ docs,
      trace r = [EvTransaction; EvQuery q] ++ (EvWrite <$> deletions docs)
      ∧ ∀ s, s ∈ docs → c !! Ref s = Some (Data s) ∧ matches q (Data s))
  ∧ match ret r with
    | Some _ => store r = c
    | None => store r = kept q c
    end
  ∧ (no_faults env → ret r = None).
Proof.
  intros r; subst r. rewrite delete_tx_as_replace.
  destruct (replace_tx env c q [])
    as ((docs & created & Htr & Hpre & Hdocs) & Hst & Hok).
  split; [|split].
  - exists docs. split; [|done]. rewrite Htr.
    apply prefix_nil_inv in Hpre as ->. simpl. by rewrite app_nil_r.
  - destruct (ret _); [done|]. by destruct Hst as (-> & _).
  - intros Hnf. apply Hok; [done|constructor|].
    intros id Hid; by apply elem_of_nil in Hid.
Qed.

End Replace.

(** ** Queries built from a selector *)

Section SelectorQuery.

Implicit Types (env : Env) (q : Query) (selector : gmap string string)
  (l : list (string * string)).

Lemma foldl_Where q l :
  foldl (fun q kv => Where q kv.1 OpEq kv.2) q l
  = q ++ ((fun kv => mkFilter kv.1 OpEq kv.2) <$> l).
Proof.
  revert q; induction l as [|kv l IH]; intros q; simpl.
  - by rewrite app_nil_r.
  - rewrite IH. unfold Where. by rewrite <- app_assoc.
Qed.

Lemma equalities_app q q' : equalities (q ++ q') = equalities q ++ equalities q'.
Proof. apply omap_app. Qed.

Lemma equalities_fmap l :
  equalities ((fun kv => mkFilter kv.1 OpEq kv.2) <$> l) = l.
Proof.
  induction l as [|[k v] l IH]; [done|]. simpl. f_equal. exact IH.
Qed.

Lemma inequalities_fmap l :
  inequalities ((fun kv => mkFilter kv.1 OpEq kv.2) <$> l) = [].
Proof.
  induction l as [|[k v] l IH]; [done|]. unfold inequalities in *.
  exact IH.
Qed.

Lemma equalities_selector_query env selector :
  equalities (selector_query env selector) = range env 0 selector.
Proof.
  unfold selector_query. by rewrite foldl_Where, equalities_app, equalities_fmap.
Qed.

Lemma inequalities_selector_query env selector :
  inequalities (selector_query env selector) = [mkFilter "p_type" OpGt ""].
Proof.
  unfold selector_query, inequalities. rewrite foldl_Where, filter_app.
  fold (inequalities ((fun kv => mkFilter kv.1 OpEq kv.2) <$> range env 0 selector)).
  by rewrite inequalities_fmap.
Qed.

Lemma elem_of_range {A} env n (m : gmap string A) (k : string) (a : A) :
  (k, a) ∈ range env n m ↔ m !! k = Some a.
Proof. by rewrite range_Permutation, elem_of_map_to_list. Qed.

Lemma NoDup_range {A} env n (m : gmap string A) : NoDup (range env n m).
Proof. rewrite range_Permutation. apply NoDup_map_to_list. Qed.

Lemma queries_delete_trace q (docs : list DocumentSnapshot) :
  queries ([EvTransaction; EvQuery q] ++ (EvWrite <$> deletions docs)) = [q].
Proof. by rewrite queries_app, queries_writes. Qed.

End SelectorQuery.

(** C1.  For every call [RemoveFilteredPolicy(sec, ptype, fieldIndex,
    fieldValues...)] the call does not panic and issues one query.  Its only
    constraint that is not an equality is [p_type > ""]; its equality
    constraints, no two alike, are exactly [p_type == ptype] and, for every
    position [k] of [0..5] inside the window
    [fieldIndex <= k < fieldIndex + len(fieldValues)] whose supplied value
    [fieldValues[k - fieldIndex]] is not empty, [vk == fieldValues[k -
    fieldIndex]].  Positions outside the window and empty values add
    nothing; [fieldIndex] may be negative.  ([fieldIndex] is a Go [int] and
    [fieldValues] a Go slice.) *)
Theorem RemoveFilteredPolicy_constraints
    (env : Env) (c : Collection) (sec ptype : string)
    (fieldIndex : Z) (fieldValues : list string) :
  Go.is_int fieldIndex →
  (Go.len fieldValues < Go.max_slice_len)%Z →
  ∃ r q,
    RemoveFilteredPolicy env c sec ptype fieldIndex fieldValues = Some r
    ∧ queries (trace r) = [q]
    ∧ inequalities q = [mkFilter "p_type" OpGt ""]
    ∧ NoDup (equalities q)
    ∧ ∀ name v,
        (name, v) ∈ equalities q ↔
          (name = "p_type" ∧ v = ptype)
          ∨ ∃ k, (0 ≤ k ≤ 5)%Z ∧ name = field_name k
                 ∧ constrains fieldIndex fieldValues k v.
Proof.
  intros Hi Hl.
  destruct (RemoveFilteredPolicy_selector_lookup ptype fieldIndex fieldValues Hi Hl)
    as (selector & Hsel & Hlookup).
  unfold RemoveFilteredPolicy. rewrite Hsel; simpl.
  eexists _, (selector_query env selector). split; [done|].
  destruct (delete_tx env c (selector_query env selector)) as ((docs & -> & _) & _).
  split; [apply queries_delete_trace|].
  split; [apply inequalities_selector_query|].
  rewrite equalities_selector_query.
  split; [apply NoDup_range|].
  intros name v. by rewrite elem_of_range.
Qed.

Lemma RemoveFilteredPolicy_constraints_witness :
  ∃ r q,
    RemoveFilteredPolicy quiet ∅ "p" "p" (-2) ["x"; "y"; "z"] = Some r
    ∧ queries (trace r) = [q]
    ∧ inequalities q = [mkFilter "p_type" OpGt ""]
    ∧ NoDup (equalities q)
    ∧ ∀ name v,
        (name, v) ∈ equalities q ↔
          (name = "p_type" ∧ v = "p")
          ∨ ∃ k, (0 ≤ k ≤ 5)%Z ∧ name = field_name k
                 ∧ constrains (-2) ["x"; "y"; "z"] k v.
Proof.
  apply (RemoveFilteredPolicy_constraints quiet ∅ "p" "p" (-2) ["x"; "y"; "z"]).
  - unfold Go.is_int, Go.min_int, Go.max_int. lia.
  - reflexivity.
Defined.

(** The examples of the specification: a window that starts two positions
    before field 0 constrains field 0 only, and a single value at index 0
    constrains field 0 only. *)
Example RemoveFilteredPolicy_window_before_field0
    (env : Env) (c : Collection) (sec ptype : string) :
  ∃ r q,
    RemoveFilteredPolicy env c sec ptype (-2) ["x"; "y"; "z"] = Some r
    ∧ queries (trace r) = [q]
    ∧ equalities q ≡ₚ [("v0", "z"); ("p_type", ptype)].
Proof.
  unfold RemoveFilteredPolicy.
  change (RemoveFilteredPolicy_selector ptype (-2) ["x"; "y"; "z"])
    with (Some (<["v0" := "z"]> (<["p_type" := ptype]> (∅ : gmap string string)))).
  simpl. eexists _, _. split; [done|].
  destruct (delete_tx env c (selector_query env
    (<["v0" := "z"]> (<["p_type" := ptype]> ∅)))) as ((docs & -> & _) & _).
  split; [apply queries_delete_trace|].
  rewrite equalities_selector_query, range_Permutation.
  reflexivity.
Qed.

Example RemoveFilteredPolicy_single_value
    (env : Env) (c : Collection) (sec ptype : string) :
  ∃ r q,
    RemoveFilteredPolicy env c sec ptype 0 ["data2_admin"] = Some r
    ∧ queries (trace r) = [q]
    ∧ equalities q ≡ₚ [("v0", "data2_admin"); ("p_type", ptype)].
Proof.
  unfold RemoveFilteredPolicy.
  change (RemoveFilteredPolicy_selector ptype 0 ["data2_admin"])
    with (Some (<["v0" := "data2_admin"]> (<["p_type" := ptype]> (∅ : gmap string string)))).
  simpl. eexists _, _. split; [done|].
  destruct (delete_tx env c (selector_query env
    (<["v0" := "data2_admin"]> (<["p_type" := ptype]> ∅)))) as ((docs & -> & _) & _).
  split; [apply queries_delete_trace|].
  rewrite equalities_selector_query, range_Permutation.
  reflexivity.
Qed.

(** The scenario of the repository's test of filtered deletion: with the
    rules [domain1, alice, data3, read, accept, service1] and
    [domain1, alice, data3, write, accept, service2] stored,
    [RemoveFilteredPolicy(0, "domain1", "", "", "read")] leaves the second
    one, and [RemoveFilteredPolicy(0, "domain1", "", "", "", "", "service2")]
    then leaves nothing. *)
Example RemoveFilteredPolicy_with_wildcards :
  let rule1 := ["domain1"; "alice"; "data3"; "read"; "accept"; "service1"] in
  let rule2 := ["domain1"; "alice"; "data3"; "write"; "accept"; "service2"] in
  let c : Collection :=
    <["a" := toDoc (savePolicyLine "p" rule1)]>
    (<["b" := toDoc (savePolicyLine "p" rule2)]> ∅) in
  ∃ r1 r2,
    RemoveFilteredPolicy quiet c "p" "p" 0 ["domain1"; ""; ""; "read"] = Some r1
    ∧ ret r1 = None
    ∧ store r1 = <["b" := toDoc (savePolicyLine "p" rule2)]> ∅
    ∧ RemoveFilteredPolicy quiet (store r1) "p" "p" 0
        ["domain1"; ""; ""; ""; ""; "service2"] = Some r2
    ∧ ret r2 = None
    ∧ store r2 = ∅.
Proof.
  eexists _, _. split; [vm_compute; reflexivity|].
  split; [reflexivity|]. split; [vm_compute; reflexivity|].
  split; [vm_compute; reflexivity|]. split; [reflexivity|].
  vm_compute; reflexivity.
Qed.

(** ** Decoding and the round trip *)

Lemma policy_at_assertion (model : Model) (sec key : string) (ast : Assertion) :
  assertion_at model sec key = Some ast → policy_at model sec key = Policy ast.
Proof. unfold policy_at. by intros ->. Qed.

(** The claim C2 as stated fails on a record whose type is empty: [key[:1]]
    panics before any field is read, so nothing is decoded and nothing is
    appended.  It fails as well on a record whose type the model does not
    hold: [model[sec][key]] is the nil pointer. *)
Lemma loadPolicyLine_panics :
  loadPolicyLine (mkCasbinRule "" "alice" "data1" "read" "" "" "") sample_model = None
  ∧ loadPolicyLine (mkCasbinRule "p2" "alice" "data1" "read" "" "" "") sample_model = None.
Proof. split; reflexivity. Qed.

(** C2 (amended).  For every flat record whose type is not empty, and every
    model that holds an assertion under the section (the first character of
    the type) and the type, decoding succeeds and appends to that assertion,
    and to no other, the rule that is the longest non-empty prefix of
    [v0..v5]: the rule is a prefix of the six fields, none of its fields is
    empty, and it ends at the sixth field or in front of an empty one, so
    that no field after the first empty one is part of it.  In particular a
    record whose [v0] is empty decodes to the rule of length zero, which is
    appended all the same. *)
Theorem loadPolicyLine_longest_prefix
    (line : CasbinRule) (model : Model) (ast : Assertion) :
  PType line ≠ "" →
  assertion_at model (section_of (PType line)) (PType line) = Some ast →
  let rule := longest_nonempty_prefix (fields line) in
  (∃ model',
      loadPolicyLine line model = Some model'
      ∧ policy_at model' (section_of (PType line)) (PType line) = Policy ast ++ [rule]
      ∧ ∀ s k, (s, k) ≠ (section_of (PType line), PType line) →
          assertion_at model' s k = assertion_at model s k)
  ∧ rule `prefix_of` fields line
  ∧ Forall (fun x => x ≠ "") rule
  ∧ (fields line !! length rule = None ∨ fields line !! length rule = Some "")
  ∧ (V0 line = "" → rule = []).
Proof.
  intros Ht Hast rule. split; [|split; [|split; [|split]]].
  - destruct (loadPolicyLine_Some line model ast Ht Hast) as (model' & Hl & Ha & Ho).
    exists model'. split; [done|]. split; [|done].
    by rewrite (policy_at_assertion _ _ _ _ Ha).
  - apply longest_nonempty_prefix_prefix.
  - apply longest_nonempty_prefix_nonempty.
  - apply longest_nonempty_prefix_stop.
  - intros H0. subst rule. unfold fields. rewrite H0. reflexivity.
Qed.

Lemma loadPolicyLine_longest_prefix_witness :
  let line := mkCasbinRule "p" "alice" "" "read" "" "" "" in
  let rule := longest_nonempty_prefix (fields line) in
  rule = ["alice"]
  ∧ (∃ model',
        loadPolicyLine line sample_model = Some model'
        ∧ policy_at model' "p" "p" = [] ++ [rule]
        ∧ ∀ s k, (s, k) ≠ ("p", "p") →
            assertion_at model' s k = assertion_at sample_model s k)
  ∧ rule `prefix_of` fields line
  ∧ Forall (fun x => x ≠ "") rule
  ∧ (fields line !! length rule = None ∨ fields line !! length rule = Some "")
  ∧ (V0 line = "" → rule = []).
Proof.
  split; [reflexivity|].
  apply (loadPolicyLine_longest_prefix
           (mkCasbinRule "p" "alice" "" "read" "" "" "") sample_model (mkAssertion [])).
  - discriminate.
  - reflexivity.
Defined.

(** The claim C3 as stated fails for the empty policy type: the encoded
    record carries the empty type and decoding it panics.  Decoding panics
    as well when the model does not hold the type. *)
Lemma roundtrip_panics :
  PType (savePolicyLine "" ["alice"; "data1"; "read"]) = ""
  ∧ loadPolicyLine (savePolicyLine "" ["alice"; "data1"; "read"]) sample_model = None
  ∧ loadPolicyLine (savePolicyLine "p2" ["alice"; "data1"; "read"]) sample_model = None.
Proof. repeat split; reflexivity. Qed.

(** C3 (amended).  For every policy type that is not empty and every rule
    of at most six fields, none of them empty, the record that encodes the
    rule carries the type and decodes to exactly the rule; decoding it into
    a model that holds an assertion under the section (the first character
    of the type) and the type appends the rule there and changes nothing
    else. *)
Theorem savePolicyLine_roundtrip
    (ptype : string) (rule : list string) (model : Model) (ast : Assertion) :
  ptype ≠ "" →
  (length rule ≤ 6)%nat →
  Forall (fun x => x ≠ "") rule →
  assertion_at model (section_of ptype) ptype = Some ast →
  PType (savePolicyLine ptype rule) = ptype
  ∧ Go.slice_to 1 (PType (savePolicyLine ptype rule)) = Some (section_of ptype)
  ∧ line_tokens (savePolicyLine ptype rule) = rule
  ∧ ∃ model',
      loadPolicyLine (savePolicyLine ptype rule) model = Some model'
      ∧ policy_at model' (section_of ptype) ptype = Policy ast ++ [rule]
      ∧ ∀ s k, (s, k) ≠ (section_of ptype, ptype) →
          assertion_at model' s k = assertion_at model s k.
Proof.
  intros Ht Hlen Hne Hast.
  split; [done|]. split; [by apply slice_to_1|].
  split; [by apply line_tokens_savePolicyLine|].
  destruct (loadPolicyLine_Some (savePolicyLine ptype rule) model ast Ht Hast)
    as (model' & Hl & Ha & Ho).
  exists model'. split; [done|]. split; [|done].
  change (PType (savePolicyLine ptype rule)) with ptype in Ha.
  rewrite (policy_at_assertion _ _ _ _ Ha). cbn [Policy].
  by rewrite <- line_tokens_longest_prefix, line_tokens_savePolicyLine.
Qed.

Lemma savePolicyLine_roundtrip_witness :
  let rule := ["alice"; "data1"; "read"] in
  PType (savePolicyLine "p" rule) = "p"
  ∧ Go.slice_to 1 (PType (savePolicyLine "p" rule)) = Some "p"
  ∧ line_tokens (savePolicyLine "p" rule) = rule
  ∧ ∃ model',
      loadPolicyLine (savePolicyLine "p" rule) sample_model = Some model'
      ∧ policy_at model' "p" "p" = [] ++ [rule]
      ∧ ∀ s k, (s, k) ≠ ("p", "p") →
          assertion_at model' s k = assertion_at sample_model s k.
Proof.
  apply (savePolicyLine_roundtrip "p" ["alice"; "data1"; "read"]
           sample_model (mkAssertion [])).
  - discriminate.
  - simpl; lia.
  - repeat constructor; discriminate.
  - reflexivity.
Defined.

(** ** Removing one rule *)

Section Remove.

Implicit Types (env : Env) (c : Collection) (line : CasbinRule) (d : DocData).

Lemma matches_RemovePolicy_query line d :
  matches (RemovePolicy_query line) d ↔ RemovePolicy_hit line d.
Proof.
  unfold RemovePolicy_query, RemovePolicy_hit.
  rewrite !matches_Where, !andb_True, matches_newQuery, !holds_eq.
  unfold has_type, field_is. split.
  - intros (((((([s [Hs Hne]] & Ht) & ?) & ?) & ?) & ?) & ?).
    repeat split; try done. intros He. rewrite Ht, He in Hs. by simplify_eq.
  - intros (Hne & Ht & ? & ? & ? & ? & ?). repeat split; try done. eauto.
Qed.

Lemma transactions_trace q (docs : list DocumentSnapshot)
    (created : list (string * DocData)) :
  transactions ([EvTransaction; EvQuery q]
                ++ (EvWrite <$> deletions docs) ++ (EvWrite <$> creations created))
  = 1%nat.
Proof. by rewrite !transactions_app, !transactions_writes. Qed.

Lemma elem_of_deletions (docs : list DocumentSnapshot) (w : Write) :
  w ∈ deletions docs ↔ ∃ s, w = WDelete (Ref s) ∧ s ∈ docs.
Proof. unfold deletions. by rewrite list_elem_of_fmap. Qed.

Lemma elem_of_creations (news : list (string * DocData)) (w : Write) :
  w ∈ creations news ↔ ∃ id d, w = WCreate id d ∧ (id, d) ∈ news.
Proof.
  unfold creations. rewrite list_elem_of_fmap. split.
  - intros ([id d] & -> & Hin). eauto.
  - intros (id & d & -> & Hin). by exists (id, d).
Qed.

(** [v5] plays no part in what [RemovePolicy] is after. *)
Lemma RemovePolicy_hit_v5 line d (v : Value) :
  RemovePolicy_hit line d ↔ RemovePolicy_hit line (<["v5" := v]> d).
Proof.
  unfold RemovePolicy_hit, field_is.
  by rewrite !(lookup_insert_ne d "v5") by done.
Qed.

End Remove.

(** The claim C5 as stated fails for the empty policy type: the query asks
    for [p_type > ""] and [p_type == ""] at once, so the record that equals
    the encoded one in its type and all its fields stays. *)
Lemma RemovePolicy_empty_type_keeps :
  let c : Collection := <["r1" := toDoc (savePolicyLine "" ["alice"; "data1"])]> ∅ in
  let r := RemovePolicy quiet c "p" "" ["alice"; "data1"] in
  ret r = None ∧ store r = c.
Proof. split; vm_compute; reflexivity. Qed.

(** C5 (amended).  For every section, type and rule, [RemovePolicy] encodes
    the rule and runs one transaction that deletes nothing but records whose
    type is the encoded type, is not empty, and whose fields 0 to 4 are the
    encoded ones.  If the call returns no error, exactly those records are
    gone and every other record is as it was; if it returns an error, the
    collection is as it was.  [v5] is not looked at: overwriting it in a
    record does not change whether the record is removed.  Unless the
    transport fails the call returns no error, whether or not any record
    matches.  (With the empty type no record matches.) *)
Theorem RemovePolicy_deletes_matching
    (env : Env) (c : Collection) (sec ptype : string) (rule : list string) :
  let line := savePolicyLine ptype rule in
  let r := RemovePolicy env c sec ptype rule in
  transactions (trace r) = 1%nat
  ∧ (∀ w, w ∈ buffered (trace r) →
       ∃ id d, w = WDelete id ∧ c !! id = Some d ∧ RemovePolicy_hit line d)
  ∧ match ret r with
    | None => ∀ id d, store r !! id = Some d ↔ c !! id = Some d ∧ ¬ RemovePolicy_hit line d
    | Some _ => store r = c
    end
  ∧ (no_faults env → ret r = None)
  ∧ (∀ d v, RemovePolicy_hit line d ↔ RemovePolicy_hit line (<["v5" := v]> d)).
Proof.
  intros line r; subst r. unfold RemovePolicy. fold line.
  destruct (delete_tx env c (RemovePolicy_query line))
    as ((docs & Htr & Hdocs) & Hst & Hok).
  split; [|split; [|split; [|split]]].
  - rewrite Htr. rewrite <- (app_nil_r (EvWrite <$> deletions docs)).
    apply (transactions_trace _ docs []).
  - intros w. rewrite Htr, buffered_app, buffered_writes; simpl.
    intros (s & -> & Hs)%elem_of_deletions.
    destruct (Hdocs s Hs) as [Hc Hm]. exists (Ref s), (Data s).
    by rewrite <- matches_RemovePolicy_query.
  - destruct (ret _); [done|]. rewrite Hst. intros id d.
    by rewrite lookup_kept_Some, matches_RemovePolicy_query.
  - done.
  - intros d v. apply RemovePolicy_hit_v5.
Qed.

(** The scenario of the specification: removing [alice, data1, write]
    removes the record that differs from it in [v5] only, and leaves the
    others. *)
Lemma RemovePolicy_deletes_matching_witness :
  let c : Collection :=
    <["r1" := toDoc (savePolicyLine "p" ["alice"; "data1"; "write"])]>
    (<["r2" := toDoc (mkCasbinRule "p" "alice" "data1" "write" "" "" "x")]>
    (<["r3" := toDoc (savePolicyLine "p" ["alice"; "data1"; "read"])]> ∅)) in
  let r := RemovePolicy quiet c "p" "p" ["alice"; "data1"; "write"] in
  ret r = None
  ∧ store r = <["r3" := toDoc (savePolicyLine "p" ["alice"; "data1"; "read"])]> ∅
  ∧ transactions (trace r) = 1%nat.
Proof.
  intros c r.
  destruct (RemovePolicy_deletes_matching quiet c "p" "p" ["alice"; "data1"; "write"])
    as (Htx & _ & _ & Hok & _).
  split; [apply Hok; by repeat split|].
  split; [vm_compute; reflexivity|exact Htx].
Defined.

(** ** Saving the whole policy *)

Section Save.

Implicit Types (env : Env) (c : Collection) (model : Model)
  (lines : list CasbinRule) (d : DocData).

Lemma section_lines_Permutation env n (am : AssertionMap) :
  section_lines env n am ≡ₚ section_rules am.
Proof. unfold section_lines, section_rules. by rewrite range_Permutation. Qed.

(** Whatever the order of the two [range] loops, the lines are those of
    the model. *)
Lemma SavePolicy_lines_Permutation env model :
  SavePolicy_lines env model ≡ₚ encoded_rules model.
Proof.
  unfold SavePolicy_lines, encoded_rules.
  by rewrite !section_lines_Permutation.
Qed.

Lemma new_docs_fst env i lines :
  (new_docs env i lines).*1 = drawn_ids env i (length lines).
Proof.
  unfold new_docs, drawn_ids. apply fst_zip.
  by rewrite !length_fmap, length_seq.
Qed.

Lemma new_docs_snd env i lines : (new_docs env i lines).*2 = toDoc <$> lines.
Proof.
  unfold new_docs, drawn_ids. apply snd_zip.
  by rewrite !length_fmap, length_seq.
Qed.

Lemma length_new_docs env i lines : length (new_docs env i lines) = length lines.
Proof. by rewrite <- (length_fmap snd), new_docs_snd, length_fmap. Qed.

Lemma records_kept_newQuery c d :
  records (kept newQuery c) d ↔ records c d ∧ ¬ has_type d.
Proof.
  unfold records. split.
  - intros [id Hid]. apply lookup_kept_Some in Hid as [Hc Hm].
    rewrite matches_newQuery in Hm. eauto.
  - intros [[id Hid] Hm]. exists id. apply lookup_kept_Some.
    by rewrite matches_newQuery.
Qed.

(** The record set a successful save leaves: the encoded lines, and the
    records without a type that were there before. *)
Lemma records_SavePolicy env c model :
  ret (SavePolicy env c model) = None →
  ∀ d, records (store (SavePolicy env c model)) d
       ↔ d ∈ toDoc <$> SavePolicy_lines env model ∨ (records c d ∧ ¬ has_type d).
Proof.
  intros Hret d. unfold SavePolicy in *.
  destruct (replace_tx env c newQuery (SavePolicy_lines env model))
    as (_ & Hst & _).
  rewrite Hret in Hst. destruct Hst as (-> & Hnd & Hfresh).
  rewrite <- records_kept_newQuery, <- (new_docs_snd env 0). unfold records. split.
  - intros [id Hid]. apply (lookup_create_all _ _ _ _ Hnd) in Hid as [Hin|[_ Hk]].
    + left. apply list_elem_of_fmap. by exists (id, d).
    + right. eauto.
  - intros [Hin|[id Hid]].
    + apply list_elem_of_fmap in Hin as ([id d'] & -> & Hin).
      exists id. apply (lookup_create_all _ _ _ _ Hnd). by left.
    + exists id. apply (lookup_create_all _ _ _ _ Hnd). right. split; [|done].
      intros Hin. specialize (Hfresh _ Hin). congruence.
Qed.

End Save.

(** The claim C4 as stated fails on a collection that holds a record
    without a policy type: the model-definition document "conf", which
    [SaveModel] keeps in the same collection, and a record whose type is
    empty both survive a successful [SavePolicy]. *)
Lemma SavePolicy_keeps_untyped_records :
  let c : Collection :=
    <["conf" := confDoc "[request_definition]"]>
    (<["r0" := toDoc (savePolicyLine "" ["alice"; "data1"; "read"])]>
    (<["r1" := toDoc (savePolicyLine "p" ["bob"; "data2"; "write"])]> ∅)) in
  let r := SavePolicy quiet c sample_model in
  ret r = None
  ∧ store r !! "conf" = Some (confDoc "[request_definition]")
  ∧ store r !! "r0" = Some (toDoc (savePolicyLine "" ["alice"; "data1"; "read"]))
  ∧ store r !! "r1" = None.
Proof. repeat split; vm_compute; reflexivity. Qed.

(** C4 (amended).  [SavePolicy(model)] encodes one line per rule of every
    policy type of the sections "p" and "g" and runs one transaction, which
    buffers nothing but deletions of existing records whose type is a
    non-empty string and creations of the new records, one per line.  It is
    all or nothing: if the call returns an error the collection is as it
    was; if it returns none, every record whose type is a non-empty string
    is gone, every other record is as it was, and each line is stored under
    an identifier of its own.  Unless the transport fails or [NewDoc] draws
    an identifier twice or one that a surviving record bears, the call
    returns no error. *)
Theorem SavePolicy_atomic_replace (env : Env) (c : Collection) (model : Model) :
  let r := SavePolicy env c model in
  let lines := SavePolicy_lines env model in
  let news := new_docs env 0 lines in
  lines ≡ₚ encoded_rules model
  ∧ news.*2 = toDoc <$> lines
  ∧ transactions (trace r) = 1%nat
  ∧ queries (trace r) = [newQuery]
  ∧ (∀ w, w ∈ buffered (trace r) →
       (∃ id d, w = WDelete id ∧ c !! id = Some d ∧ has_type d)
       ∨ (∃ id d, w = WCreate id d ∧ (id, d) ∈ news))
  ∧ match ret r with
    | Some _ => store r = c
    | None =>
        NoDup news.*1
        ∧ ∀ id d, store r !! id = Some d ↔
            ((id, d) ∈ news) ∨ ((id ∉ news.*1) ∧ c !! id = Some d ∧ ¬ has_type d)
    end
  ∧ (no_faults env → NoDup news.*1 →
     (∀ id d, c !! id = Some d → ¬ has_type d → id ∉ news.*1) →
     ret r = None).
Proof.
  intros r lines news; subst r. unfold SavePolicy. fold lines.
  destruct (replace_tx env c newQuery lines)
    as ((docs & created & Htr & Hpre & Hdocs) & Hst & Hok).
  fold news in Hpre, Hst, Hok.
  split; [apply SavePolicy_lines_Permutation|].
  split; [apply new_docs_snd|].
  split; [rewrite Htr; apply transactions_trace|].
  split; [by rewrite Htr, !queries_app, !queries_writes|].
  split; [|split].
  - intros w. rewrite Htr, !buffered_app, !buffered_writes; simpl.
    intros [Hw|Hw]%elem_of_app.
    + left. apply elem_of_deletions in Hw as (s & -> & Hs).
      destruct (Hdocs s Hs) as [Hc Hm]. exists (Ref s), (Data s).
      by rewrite <- matches_newQuery.
    + right. apply elem_of_creations in Hw as (id & d & -> & Hin).
      exists id, d. split; [done|]. destruct Hpre as [rest ->].
      apply elem_of_app. by left.
  - destruct (ret _); [done|]. destruct Hst as (-> & Hnd & Hfresh).
    split; [done|]. intros id d.
    rewrite (lookup_create_all _ _ _ _ Hnd), lookup_kept_Some, matches_newQuery.
    tauto.
  - intros Hnf Hnd Hfresh. apply Hok; [done..|].
    intros id Hid. destruct (kept newQuery c !! id) as [d|] eqn:Hk; [|done].
    apply lookup_kept_Some in Hk as [Hc Hm]. rewrite matches_newQuery in Hm.
    by destruct (Hfresh id d Hc Hm).
Qed.

Lemma SavePolicy_atomic_replace_witness :
  let model : Model :=
    <["p" := <["p" := mkAssertion [["alice"; "data1"; "read"]; ["bob"; "data2"; "write"]]]> ∅]>
    (<["g" := <["g" := mkAssertion [["alice"; "data2_admin"]]]> ∅]> ∅) in
  let c : Collection :=
    <["old" := toDoc (savePolicyLine "p" ["carol"; "data3"; "read"])]> ∅ in
  let refused := mkEnv (fun _ => []) [] (fun i => "doc" +:+ pretty i) None
                   (fun w => match w with
                             | WCreate "doc2" _ => Some "firestore: nil document contents"
                             | _ => None
                             end) None in
  (ret (SavePolicy quiet c model) = None
   ∧ transactions (trace (SavePolicy quiet c model)) = 1%nat
   ∧ store (SavePolicy quiet c model) !! "old" = None)
  ∧ (ret (SavePolicy refused c model) = Some "firestore: nil document contents"
     ∧ store (SavePolicy refused c model) = c).
Proof.
  intros model c refused. split.
  - destruct (SavePolicy_atomic_replace quiet c model)
      as (_ & _ & Htx & _ & _ & _ & Hok).
    split; [|split; [exact Htx|vm_compute; reflexivity]].
    apply Hok; [by repeat split|apply (bool_decide_unpack _); vm_compute; reflexivity|].
    intros id d Hid Hu. exfalso. apply Hu. subst c.
    destruct (decide (id = "old")) as [->|Hne].
    + rewrite lookup_insert_eq in Hid. injection Hid as <-.
      exists "p". split; [reflexivity|discriminate].
    + by rewrite lookup_insert_ne in Hid.
  - destruct (SavePolicy_atomic_replace refused c model)
      as (_ & _ & _ & _ & _ & Hst & _).
    assert (Hret : ret (SavePolicy refused c model)
                   = Some "firestore: nil document contents")
      by (vm_compute; reflexivity).
    rewrite Hret in Hst. by split.
Defined.

(** C7.  For every model and every collection, if a first [SavePolicy] of
    the model returns no error, then after a second [SavePolicy] of the same
    model, whatever the orders, the identifiers and the failures of that
    second run, the stored record set is the one the first call left. *)
Theorem SavePolicy_idempotent (env1 env2 : Env) (c : Collection) (model : Model) :
  let r1 := SavePolicy env1 c model in
  let r2 := SavePolicy env2 (store r1) model in
  ret r1 = None →
  same_records (store r2) (store r1).
Proof.
  intros r1 r2 H1 d; subst r1 r2.
  destruct (ret (SavePolicy env2 (store (SavePolicy env1 c model)) model))
    as [e|] eqn:H2.
  - pose proof (RunTransaction_ret env2 (store (SavePolicy env1 c model))
      (iter ← tx_Documents env2 (store (SavePolicy env1 c model)) newQuery;
       _ ← delete_each env2 iter;
       create_each env2 (SavePolicy_lines env2 model) 0)) as Hret.
    fold (SavePolicy env2 (store (SavePolicy env1 c model)) model) in Hret.
    rewrite H2 in Hret. by rewrite Hret.
  - rewrite (records_SavePolicy _ _ _ H2), !(records_SavePolicy _ _ _ H1).
    assert (Hl : d ∈ toDoc <$> SavePolicy_lines env2 model
                 ↔ d ∈ toDoc <$> SavePolicy_lines env1 model).
    { by rewrite !SavePolicy_lines_Permutation. }
    tauto.
Qed.

Lemma SavePolicy_idempotent_witness :
  let model : Model :=
    <["p" := <["p" := mkAssertion [["alice"; "data1"; "read"]; ["bob"; "data2"; "write"]]]> ∅]>
    (<["g" := <["g" := mkAssertion [["alice"; "data2_admin"]]]> ∅]> ∅) in
  let c : Collection := <["old" := toDoc (savePolicyLine "p" ["carol"; "data3"; "read"])]> ∅ in
  let env2 := mkEnv (fun _ => [1%nat]) [2%nat] (fun i => "second" +:+ pretty i)
                None (fun _ => None) None in
  let r1 := SavePolicy quiet c model in
  let r2 := SavePolicy env2 (store r1) model in
  ret r1 = None ∧ ret r2 = None ∧ same_records (store r2) (store r1).
Proof.
  split; [reflexivity|]. split; [vm_compute; reflexivity|].
  apply (SavePolicy_idempotent quiet). reflexivity.
Defined.

(** ** The type guard of every query *)

Section Guard.

Implicit Types (env : Env) (c : Collection) (q : Query) (d : DocData)
  (body : Tx unit).

Lemma holds_type_guard d : holds type_guard d ↔ has_type d.
Proof.
  rewrite <- matches_newQuery. unfold newQuery, Where, matches; simpl.
  by rewrite andb_true_r.
Qed.

Lemma guarded_matches q d : type_guard ∈ q → matches q d → has_type d.
Proof. intros Hq Hm. apply holds_type_guard. by apply (matches_elem q). Qed.

Lemma type_guard_newQuery : type_guard ∈ newQuery.
Proof. apply list_elem_of_singleton. reflexivity. Qed.

Lemma type_guard_Where q p o v : type_guard ∈ q → type_guard ∈ Where q p o v.
Proof. intros H. apply elem_of_app. by left. Qed.

Lemma type_guard_RemovePolicy_query line : type_guard ∈ RemovePolicy_query line.
Proof. unfold RemovePolicy_query. do 6 apply type_guard_Where. apply type_guard_newQuery. Qed.

Lemma type_guard_selector_query env (selector : gmap string string) :
  type_guard ∈ selector_query env selector.
Proof.
  unfold selector_query. rewrite foldl_Where. apply elem_of_app. left.
  apply type_guard_newQuery.
Qed.

Lemma empty_type_untyped d : field_is d "p_type" "" → ¬ has_type d.
Proof. unfold field_is, has_type. intros H (s & Hs & Hne). congruence. Qed.

(** A transaction whose buffered writes are deletions of typed records
    and creations leaves every record without a type where it is. *)
Lemma RunTransaction_keeps_untyped env c body (id : string) d :
  c !! id = Some d → ¬ has_type d →
  (∀ w, w ∈ buffered (trace (RunTransaction env c body)) →
     (∃ id' d', w = WDelete id' ∧ c !! id' = Some d' ∧ has_type d')
     ∨ (∃ id' d', w = WCreate id' d')) →
  store (RunTransaction env c body) !! id = Some d.
Proof.
  intros Hc Hu Hws. pose proof (RunTransaction_ret env c body) as Hret.
  rewrite RunTransaction_trace in Hws.
  destruct (ret _); [by rewrite Hret|]. destruct Hret as [_ Hap].
  eapply apply_writes_preserves; [exact Hc| | |exact Hap].
  - intros Hin. destruct (Hws _ Hin) as [(id' & d' & [= <-] & Hc' & Ht)|(? & ? & ?)];
      [|done]. rewrite Hc in Hc'. by simplify_eq.
  - intros d' Hin. by destruct (Hws _ Hin) as [(? & ? & ? & _)|(? & ? & ?)].
Qed.

(** The deleting transactions delete typed records only. *)
Lemma delete_tx_writes env c q :
  type_guard ∈ q →
  ∀ w, w ∈ buffered (trace (RunTransaction env c
               (iter ← tx_Documents env c q; delete_each env iter))) →
    (∃ id' d', w = WDelete id' ∧ c !! id' = Some d' ∧ has_type d')
    ∨ (∃ id' d' : _, w = WCreate id' d').
Proof.
  intros Hq w. destruct (delete_tx env c q) as ((docs & -> & Hdocs) & _).
  rewrite buffered_app, buffered_writes; simpl.
  intros (s & -> & Hs)%elem_of_deletions. left.
  destruct (Hdocs s Hs) as [Hc Hm]. exists (Ref s), (Data s).
  split; [done|]. split; [done|]. by apply (guarded_matches q).
Qed.

Lemma collect_rules_typed (items : list (Go.error + DocumentSnapshot))
    (acc rules : list CasbinRule) :
  (∀ s, inr s ∈ items → has_type (Data s)) →
  Forall (fun rule => PType rule ≠ "") acc →
  collect_rules items acc = inr rules →
  Forall (fun rule => PType rule ≠ "") rules.
Proof.
  revert acc; induction items as [|[e|s] items IH]; intros acc Hit Hacc; simpl.
  - by intros [= <-].
  - done.
  - destruct (DataTo (Data s)) as [e|rule] eqn:Hd; [done|].
    apply IH.
    + intros s' Hs'. apply Hit. by right.
    + apply Forall_app. split; [done|]. constructor; [|constructor].
      destruct (Hit s) as (t & Ht & Hne); [left|].
      revert Hd. unfold DataTo, string_field. rewrite Ht.
      repeat (match goal with
              | |- context [match ?x !! ?k with _ => _ end] =>
                  destruct (x !! k) as [[?|?]|]
              end; try done).
      all: by intros [= <-].
Qed.

End Guard.

Section GuardedOperations.

Implicit Types (env : Env) (c : Collection) (q : Query) (d : DocData).

Lemma replace_tx_writes env c q (lines : list CasbinRule) :
  type_guard ∈ q →
  ∀ w, w ∈ buffered (trace (RunTransaction env c
               (iter ← tx_Documents env c q;
                _ ← delete_each env iter;
                create_each env lines 0))) →
    (∃ id' d', w = WDelete id' ∧ c !! id' = Some d' ∧ has_type d')
    ∨ (∃ id' d' : _, w = WCreate id' d').
Proof.
  intros Hq w.
  destruct (replace_tx env c q lines) as ((docs & created & -> & _ & Hdocs) & _).
  rewrite !buffered_app, !buffered_writes; simpl.
  intros [Hw|Hw]%elem_of_app.
  - apply elem_of_deletions in Hw as (s & -> & Hs). left.
    destruct (Hdocs s Hs) as [Hc Hm]. exists (Ref s), (Data s).
    split; [done|]. split; [done|]. by apply (guarded_matches q).
  - apply elem_of_creations in Hw as (id & d & -> & _). right. eauto.
Qed.

Lemma AddPolicy_trace env c (sec ptype : string) (rule : list string) :
  let w := WCreate (new_id env 0) (toDoc (savePolicyLine ptype rule)) in
  trace (AddPolicy env c sec ptype rule) = [EvTransaction]
  ∨ trace (AddPolicy env c sec ptype rule) = [EvTransaction; EvWrite w].
Proof.
  unfold AddPolicy. rewrite RunTransaction_trace.
  unfold tx_Create, tx_write. destruct (write_fault env _); simpl; eauto.
Qed.

Lemma LoadPolicy_trace env c (model : Model) :
  trace (LoadPolicy env c model) = [EvQuery newQuery]
  ∧ store (LoadPolicy env c model) = c.
Proof. unfold LoadPolicy. by destruct (collect_rules _ _). Qed.

Lemma RemoveFilteredPolicy_Some env c (sec ptype : string) (fieldIndex : Z)
    (fieldValues : list string) r :
  RemoveFilteredPolicy env c sec ptype fieldIndex fieldValues = Some r →
  ∃ selector,
    r = RunTransaction env c (
          iter ← tx_Documents env c (selector_query env selector);
          delete_each env iter).
Proof.
  unfold RemoveFilteredPolicy.
  destruct (RemoveFilteredPolicy_selector _ _ _) as [selector|]; simpl; [|done].
  intros [= <-]. eauto.
Qed.

End GuardedOperations.

(** C9.  Every query an operation of the adapter issues ([LoadPolicy], the
    enumeration inside [SavePolicy]'s transaction, [RemovePolicy],
    [RemoveFilteredPolicy]; [AddPolicy] issues none) carries the constraint
    [p_type > ""], which a record satisfies exactly when its type is a
    non-empty string.  Consequently a stored record whose type is the empty
    string is never loaded, [LoadPolicy] neither reads it from its iterator
    nor decodes any rule with an empty type, and is never deleted: after
    each of the five operations, failed or not, it is still stored under its
    identifier. *)
Theorem every_query_guards_type
    (env : Env) (c : Collection) (model : Model) (sec ptype : string)
    (rule : list string) (fieldIndex : Z) (fieldValues : list string) :
  (∀ q, q ∈ queries (trace (LoadPolicy env c model)) → type_guard ∈ q)
  ∧ (∀ q, q ∈ queries (trace (SavePolicy env c model)) → type_guard ∈ q)
  ∧ (∀ q, q ∈ queries (trace (AddPolicy env c sec ptype rule)) → type_guard ∈ q)
  ∧ (∀ q, q ∈ queries (trace (RemovePolicy env c sec ptype rule)) → type_guard ∈ q)
  ∧ (∀ r q, RemoveFilteredPolicy env c sec ptype fieldIndex fieldValues = Some r →
       q ∈ queries (trace r) → type_guard ∈ q)
  ∧ (∀ d, holds type_guard d ↔ has_type d)
  ∧ (∀ rules, collect_rules (Documents env newQuery c) [] = inr rules →
       Forall (fun rule => PType rule ≠ "") rules)
  ∧ ∀ id d, c !! id = Some d → field_is d "p_type" "" →
      (inr (mkSnapshot id d) ∉ Documents env newQuery c)
      ∧ store (LoadPolicy env c model) !! id = Some d
      ∧ store (SavePolicy env c model) !! id = Some d
      ∧ store (AddPolicy env c sec ptype rule) !! id = Some d
      ∧ store (RemovePolicy env c sec ptype rule) !! id = Some d
      ∧ ∀ r, RemoveFilteredPolicy env c sec ptype fieldIndex fieldValues = Some r →
          store r !! id = Some d.
Proof.
  split; [|split; [|split; [|split; [|split; [|split; [|split]]]]]].
  - intros q. destruct (LoadPolicy_trace env c model) as [-> _].
    intros ->%list_elem_of_singleton. apply type_guard_newQuery.
  - intros q. unfold SavePolicy.
    destruct (replace_tx env c newQuery (SavePolicy_lines env model))
      as ((docs & created & -> & _) & _).
    rewrite !queries_app, !queries_writes; simpl.
    intros ->%list_elem_of_singleton. apply type_guard_newQuery.
  - intros q. destruct (AddPolicy_trace env c sec ptype rule) as [-> | ->]; simpl;
      intros Hq; by apply elem_of_nil in Hq.
  - intros q. unfold RemovePolicy.
    destruct (delete_tx env c (RemovePolicy_query (savePolicyLine ptype rule)))
      as ((docs & -> & _) & _).
    rewrite queries_delete_trace. intros ->%list_elem_of_singleton.
    apply type_guard_RemovePolicy_query.
  - intros r q (selector & ->)%RemoveFilteredPolicy_Some.
    destruct (delete_tx env c (selector_query env selector)) as ((docs & -> & _) & _).
    rewrite queries_delete_trace. intros ->%list_elem_of_singleton.
    apply type_guard_selector_query.
  - apply holds_type_guard.
  - intros rules. apply collect_rules_typed; [|constructor].
    intros s Hs. apply Documents_inr in Hs as [_ Hm]. by apply matches_newQuery.
  - intros id d Hc Hempty. pose proof (empty_type_untyped d Hempty) as Hu.
    split; [|split; [|split; [|split; [|split]]]].
    + intros Hin. apply Documents_inr in Hin as [_ Hm]; simpl in Hm.
      by apply matches_newQuery in Hm.
    + by destruct (LoadPolicy_trace env c model) as [_ ->].
    + apply RunTransaction_keeps_untyped; [done..|].
      apply replace_tx_writes, type_guard_newQuery.
    + apply RunTransaction_keeps_untyped; [done..|].
      fold (AddPolicy env c sec ptype rule). intros w.
      destruct (AddPolicy_trace env c sec ptype rule) as [-> | ->]; simpl.
      * intros Hw; by apply elem_of_nil in Hw.
      * intros ->%list_elem_of_singleton. right. eauto.
    + apply RunTransaction_keeps_untyped; [done..|].
      apply delete_tx_writes, type_guard_RemovePolicy_query.
    + intros r (selector & ->)%RemoveFilteredPolicy_Some.
      apply RunTransaction_keeps_untyped; [done..|].
      apply delete_tx_writes, type_guard_selector_query.
Qed.

Lemma every_query_guards_type_witness :
  let c : Collection :=
    <["r0" := toDoc (savePolicyLine "" ["alice"; "data1"; "read"])]>
    (<["r1" := toDoc (savePolicyLine "p" ["alice"; "data1"; "read"])]> ∅) in
  let d := toDoc (savePolicyLine "" ["alice"; "data1"; "read"]) in
  (inr (mkSnapshot "r0" d) ∉ Documents quiet newQuery c)
  ∧ store (LoadPolicy quiet c sample_model) !! "r0" = Some d
  ∧ store (SavePolicy quiet c sample_model) !! "r0" = Some d
  ∧ store (AddPolicy quiet c "p" "" ["alice"; "data1"; "read"]) !! "r0" = Some d
  ∧ store (RemovePolicy quiet c "p" "" ["alice"; "data1"; "read"]) !! "r0" = Some d
  ∧ ∀ r, RemoveFilteredPolicy quiet c "p" "" 0 ["alice"] = Some r →
      store r !! "r0" = Some d.
Proof.
  apply (every_query_guards_type quiet _ sample_model "p" ""
           ["alice"; "data1"; "read"] 0 ["alice"]); reflexivity.
Defined.

(** ** Loading *)

Section Load.

Implicit Types (env : Env) (c : Collection) (model : Model)
  (rules : list CasbinRule).

(** The appending loop returns [nil] or panics; it has no error to
    return. *)
Lemma load_each_no_error rules model (err : Go.error) model' :
  load_each rules model ≠ (Return (Some err), model').
Proof.
  revert model; induction rules as [|rule rules IH]; intros model; simpl.
  - congruence.
  - destruct (loadPolicyLine rule model); [apply IH|congruence].
Qed.

(** An error of the reading loop is an error of the iterator or of
    [DataTo]. *)
Lemma collect_rules_error (items : list (Go.error + DocumentSnapshot))
    rules (err : Go.error) :
  collect_rules items rules = inl err →
  inl err ∈ items ∨ ∃ s, inr s ∈ items ∧ DataTo (Data s) = inl err.
Proof.
  revert rules; induction items as [|[e|s] items IH]; intros rules; simpl.
  - done.
  - intros [= ->]. left; left.
  - destruct (DataTo (Data s)) as [e|rule] eqn:Hd.
    + intros [= ->]. right. exists s. split; [left|done].
    + intros [Hin|(s' & Hin & Hs')]%IH; [left; by right|].
      right. exists s'. split; [by right|done].
Qed.

End Load.

(** C10.  If [LoadPolicy(model)] returns an error, the model the caller
    supplied is unchanged (and so is the collection): the error arose in the
    first loop, which reads and decodes the documents into the local slice
    [rules], either from the iterator or from decoding a document, and the
    second loop, the only one that appends to the model, was never
    entered. *)
Theorem LoadPolicy_error_leaves_model
    (env : Env) (c : Collection) (model model' : Model) (err : Go.error) :
  ret (LoadPolicy env c model) = (Return (Some err), model') →
  model' = model
  ∧ store (LoadPolicy env c model) = c
  ∧ collect_rules (Documents env newQuery c) [] = inl err
  ∧ (inl err ∈ Documents env newQuery c
     ∨ ∃ s, inr s ∈ Documents env newQuery c ∧ DataTo (Data s) = inl err).
Proof.
  unfold LoadPolicy.
  destruct (collect_rules (Documents env newQuery c) []) as [e|rules] eqn:Hc; simpl.
  - intros [= -> ->]. repeat split; try done. by apply (collect_rules_error _ []).
  - intros H. by apply load_each_no_error in H.
Qed.

Lemma LoadPolicy_error_leaves_model_witness :
  let c : Collection :=
    <["r1" := toDoc (savePolicyLine "p" ["alice"; "data1"; "read"])]>
    (<["r2" := <["v0" := VInteger 7]> (toDoc (savePolicyLine "p" ["bob"; "data2"; "write"]))]> ∅) in
  let failing := mkEnv (fun _ => []) [] (fun i => "doc" +:+ pretty i)
                   (Some (1%nat, "rpc error: unavailable")) (fun _ => None) None in
  (ret (LoadPolicy failing c sample_model)
   = (Return (Some "rpc error: unavailable"), sample_model))
  ∧ (ret (LoadPolicy quiet c sample_model)
     = (Return (Some "firestore: cannot set type string to int: v0"), sample_model)).
Proof.
  split.
  - assert (H : ∃ m', ret (LoadPolicy
        (mkEnv (fun _ => []) [] (fun i => "doc" +:+ pretty i)
           (Some (1%nat, "rpc error: unavailable")) (fun _ => None) None)
        (<["r1" := toDoc (savePolicyLine "p" ["alice"; "data1"; "read"])]>
         (<["r2" := <["v0" := VInteger 7]>
                      (toDoc (savePolicyLine "p" ["bob"; "data2"; "write"]))]> ∅))
        sample_model) = (Return (Some "rpc error: unavailable"), m')).
    { eexists. vm_compute. reflexivity. }
    destruct H as [m' H].
    destruct (LoadPolicy_error_leaves_model _ _ _ _ _ H) as (-> & _). exact H.
  - assert (H : ∃ m', ret (LoadPolicy quiet
        (<["r1" := toDoc (savePolicyLine "p" ["alice"; "data1"; "read"])]>
         (<["r2" := <["v0" := VInteger 7]>
                      (toDoc (savePolicyLine "p" ["bob"; "data2"; "write"]))]> ∅))
        sample_model)
        = (Return (Some "firestore: cannot set type string to int: v0"), m')).
    { eexists. vm_compute. reflexivity. }
    destruct H as [m' H].
    destruct (LoadPolicy_error_leaves_model _ _ _ _ _ H) as (-> & _). exact H.
Defined.

(** ** Saving the model definition *)

(** C8.  [SaveModel] validates the text before it persists anything: if
    the text of the file does not parse as a model definition, the call
    returns the error of the validation, and it has not touched the store:
    no transaction was started, no write was attempted, and the collection,
    with any definition saved earlier, is as it was. *)
Theorem SaveModel_validates_first
    (ReadFile : string → Go.error + string)
    (NewModelFromString : string → Go.error + Model)
    (env : Env) (c : Collection) (path_ text : string) (err : Go.error) :
  ReadFile path_ = inr text →
  NewModelFromString text = inl err →
  let r := SaveModelWithConfig ReadFile NewModelFromString env c path_ in
  ret r = Some err
  ∧ trace r = []
  ∧ store r = c
  ∧ store r !! "conf" = c !! "conf".
Proof.
  intros Hread Hbad r; subst r. unfold SaveModelWithConfig.
  by rewrite Hread, Hbad.
Qed.

Lemma SaveModel_validates_first_witness :
  let ReadFile := fun _ : string => inr "p, alice, data1, read" : Go.error + string in
  let NewModelFromString :=
    fun _ : string => inl "section [request_definition] missing" : Go.error + Model in
  let c : Collection := <["conf" := confDoc "[request_definition]"]> ∅ in
  let r := SaveModelWithConfig ReadFile NewModelFromString quiet c "examples/rbac_policy.csv" in
  ret r = Some "section [request_definition] missing"
  ∧ trace r = []
  ∧ store r = c
  ∧ store r !! "conf" = c !! "conf".
Proof.
  apply (SaveModel_validates_first
           (fun _ => inr "p, alice, data1, read")
           (fun _ => inl "section [request_definition] missing")
           quiet _ "examples/rbac_policy.csv" "p, alice, data1, read");
    reflexivity.
Defined.

(** When the text is valid the definition is written by one [Set] on the
    document "conf", inside a transaction. *)
Lemma SaveModel_valid_text
    (ReadFile : string → Go.error + string)
    (NewModelFromString : string → Go.error + Model)
    (env : Env) (c : Collection) (path_ text : string) (m : Model) :
  ReadFile path_ = inr text →
  NewModelFromString text = inr m →
  no_faults env →
  SaveModelWithConfig ReadFile NewModelFromString env c path_
  = mkResult None (<["conf" := confDoc text]> c)
      [EvTransaction; EvWrite (WSet "conf" (confDoc text))].
Proof.
  intros Hread Hgood (_ & Hw & Hc). unfold SaveModelWithConfig.
  rewrite Hread, Hgood. unfold RunTransaction, tx_Set, tx_write.
  by rewrite Hw, Hc.
Qed.

(** ** Saving, then loading *)

Section ListFilter.

Context {A : Type} (P Q : A → Prop) `{!∀ x, Decision (P x)} `{!∀ x, Decision (Q x)}.

Lemma filter_all (l : list A) : (∀ x, x ∈ l → P x) → filter P l = l.
Proof.
  induction l as [|x l IH]; intros Hall; [done|].
  rewrite filter_cons_True by (apply Hall; left).
  f_equal. apply IH. intros y Hy. apply Hall. by right.
Qed.

Lemma filter_none (l : list A) : (∀ x, x ∈ l → ¬ P x) → filter P l = [].
Proof.
  induction l as [|x l IH]; intros Hall; [done|].
  rewrite filter_cons_False by (apply Hall; left).
  apply IH. intros y Hy. apply Hall. by right.
Qed.

Lemma filter_iff (l : list A) : (∀ x, x ∈ l → P x ↔ Q x) → filter P l = filter Q l.
Proof.
  induction l as [|x l IH]; intros Hall; [done|].
  assert (IH' : filter P l = filter Q l).
  { apply IH. intros y Hy. apply Hall. by right. }
  destruct (decide (P x)) as [Hp|Hp].
  - rewrite !filter_cons_True by (done || (apply Hall; [left|done])). by rewrite IH'.
  - rewrite !filter_cons_False by (done || (rewrite <- Hall by left; done)). done.
Qed.

End ListFilter.

Section Documents.

Implicit Types (line : CasbinRule) (d : DocData) (c : Collection).

Lemma DataTo_toDoc line : DataTo (toDoc line) = inr line.
Proof. by destruct line. Qed.

Lemma decoded_toDoc line : decoded (toDoc line) = line.
Proof. unfold decoded. by rewrite DataTo_toDoc. Qed.

Lemma has_type_toDoc line : has_type (toDoc line) ↔ PType line ≠ "".
Proof.
  unfold has_type, toDoc. rewrite lookup_insert_eq. split.
  - by intros (s & [= <-] & Hne).
  - intros Hne. eauto.
Qed.

(** The reading loop decodes a stream without errors into the rules of
    its documents, in order. *)
Lemma collect_rules_ok (docs : list DocumentSnapshot) (rules : list CasbinRule) :
  (∀ s, s ∈ docs → ∃ line, Data s = toDoc line) →
  collect_rules (inr <$> docs) rules = inr (rules ++ (decoded <$> (Data <$> docs))).
Proof.
  revert rules; induction docs as [|s docs IH]; intros rules Hd; simpl.
  - by rewrite app_nil_r.
  - destruct (Hd s) as [line Hl]; [left|]. rewrite Hl, DataTo_toDoc, decoded_toDoc.
    rewrite IH by (intros s' Hs'; apply Hd; by right).
    by rewrite <- app_assoc.
Qed.

Lemma create_all_list_to_map (news : list (string * DocData)) :
  NoDup news.*1 → create_all news ∅ = list_to_map news.
Proof.
  intros Hnd. apply map_eq; intros i.
  destruct (list_to_map news !! i) as [d|] eqn:Hl.
  - apply (lookup_create_all _ _ _ _ Hnd). left.
    by apply elem_of_list_to_map in Hl.
  - destruct (create_all news ∅ !! i) as [d|] eqn:Hc; [|done].
    apply (lookup_create_all _ _ _ _ Hnd) in Hc as [Hin|[_ He]]; [|done].
    apply (elem_of_list_to_map_1 _ _ _ Hnd) in Hin. congruence.
Qed.

Lemma Data_snapshots c : Data <$> snapshots c = (map_to_list c).*2.
Proof. unfold snapshots. rewrite <- list_fmap_compose. done. Qed.

(** The documents of a collection made of freshly created records. *)
Lemma Data_snapshots_create_all (news : list (string * DocData)) :
  NoDup news.*1 → Data <$> snapshots (create_all news ∅) ≡ₚ news.*2.
Proof.
  intros Hnd. rewrite Data_snapshots, (create_all_list_to_map _ Hnd).
  by rewrite (map_to_list_to_map _ Hnd).
Qed.

End Documents.

Section LoadAll.

Implicit Types (line : CasbinRule) (model : Model) (rules : list CasbinRule)
  (am : AssertionMap).

Lemma loadPolicyLine_policy_at line model :
  PType line ≠ "" →
  is_Some (assertion_at model (section_of (PType line)) (PType line)) →
  ∃ model',
    loadPolicyLine line model = Some model'
    ∧ (∀ s k, policy_at model' s k
              = policy_at model s k
                ++ (if decide (filed_under s k line) then [line_tokens line] else []))
    ∧ (∀ s k, is_Some (assertion_at model' s k) ↔ is_Some (assertion_at model s k)).
Proof.
  intros Ht [ast Hast].
  destruct (loadPolicyLine_Some line model ast Ht Hast) as (model' & Hl & Ha & Ho).
  exists model'. split; [done|]. split; intros s k.
  - case_decide as Hf.
    + destruct Hf as [<- <-].
      rewrite (policy_at_assertion _ _ _ _ Ha), (policy_at_assertion _ _ _ _ Hast).
      by rewrite line_tokens_longest_prefix.
    + unfold policy_at. rewrite Ho; [by rewrite app_nil_r|].
      intros [= -> ->]. by apply Hf.
  - destruct (decide ((s, k) = (section_of (PType line), PType line))) as [[= -> ->]|Hne].
    + rewrite Ha, Hast. split; eauto.
    + by rewrite Ho.
Qed.

(** The appending loop, run on records whose types the model knows, files
    every record under its section and type, in order. *)
Lemma load_each_ok rules model :
  (∀ line, line ∈ rules →
     PType line ≠ ""
     ∧ is_Some (assertion_at model (section_of (PType line)) (PType line))) →
  ∃ model',
    load_each rules model = (Return None, model')
    ∧ ∀ s k, policy_at model' s k
             = policy_at model s k ++ (line_tokens <$> filter (filed_under s k) rules).
Proof.
  revert model; induction rules as [|line rules IH]; intros model Hr; simpl.
  - exists model. split; [done|]. intros s k. by rewrite app_nil_r.
  - destruct (Hr line) as [Ht Hs]; [left|].
    destruct (loadPolicyLine_policy_at line model Ht Hs) as (model1 & -> & Hp & Hd).
    destruct (IH model1) as (model' & Hl & Hp').
    { intros l' Hl'. destruct (Hr l') as [? ?]; [by right|]. split; [done|].
      by apply Hd. }
    exists model'. split; [done|]. intros s k.
    rewrite Hp', Hp, filter_cons, <- app_assoc. by case_decide.
Qed.

Lemma assertion_at_ClearPolicy model (sec key : string) :
  sec ∈ ["p"; "g"] →
  assertion_at (ClearPolicy model) sec key
  = (fun _ => mkAssertion []) <$> assertion_at model sec key.
Proof.
  intros Hsec. unfold ClearPolicy, assertion_at.
  assert (Hcases : sec = "p" ∨ sec = "g").
  { apply elem_of_cons in Hsec as [?|Hsec]; [by left|].
    apply list_elem_of_singleton in Hsec. by right. }
  destruct Hcases as [-> | ->].
  - rewrite lookup_alter_ne by done. rewrite lookup_alter_eq.
    destruct (model !! "p") as [am|]; simpl; [|done]. by rewrite lookup_fmap.
  - rewrite lookup_alter_eq, lookup_alter_ne by done.
    destruct (model !! "g") as [am|]; simpl; [|done]. by rewrite lookup_fmap.
Qed.

Lemma policy_at_ClearPolicy model (sec key : string) :
  sec ∈ ["p"; "g"] → policy_at (ClearPolicy model) sec key = [].
Proof.
  intros Hsec. unfold policy_at. rewrite assertion_at_ClearPolicy by done.
  by destruct (assertion_at model sec key).
Qed.

(** *** The lines of a section *)

Lemma elem_of_section_rules am line :
  line ∈ section_rules am ↔
    ∃ key ast rule, am !! key = Some ast ∧ rule ∈ Policy ast
                    ∧ line = savePolicyLine key rule.
Proof.
  unfold section_rules. rewrite list_elem_of_bind. split.
  - intros ([key ast] & Hin & Hm). apply elem_of_map_to_list in Hm.
    apply list_elem_of_fmap in Hin as (rule & -> & Hrule). eauto 6.
  - intros (key & ast & rule & Hm & Hrule & ->). exists (key, ast).
    split; [|by apply elem_of_map_to_list].
    apply list_elem_of_fmap. eauto.
Qed.

Lemma section_rules_delete am (key : string) ast :
  am !! key = Some ast →
  section_rules am
  ≡ₚ (savePolicyLine key <$> Policy ast) ++ section_rules (delete key am).
Proof.
  intros Hk. unfold section_rules.
  by rewrite <- (map_to_list_delete am key ast Hk) at 1.
Qed.

Lemma line_tokens_encoded (key : string) (l : list (list string)) :
  Forall encodable l → line_tokens <$> (savePolicyLine key <$> l) = l.
Proof.
  induction 1 as [|rule l [Hlen Hne] _ IH]; [done|].
  rewrite !fmap_cons, line_tokens_savePolicyLine by done. by f_equal.
Qed.

(** Among the lines of a section, those of one type decode to the rules
    of that type. *)
Lemma tokens_of_type am (key : string) :
  (∀ ast, am !! key = Some ast → Forall encodable (Policy ast)) →
  line_tokens <$> filter (fun line => PType line = key) (section_rules am)
  ≡ₚ default [] (Policy <$> am !! key).
Proof.
  intros Henc. destruct (am !! key) as [ast|] eqn:Hk; simpl.
  - rewrite (section_rules_delete _ _ _ Hk), filter_app, fmap_app.
    rewrite filter_all, line_tokens_encoded by
      (by apply Henc || by intros line (rule & -> & _)%list_elem_of_fmap).
    rewrite filter_none; [by rewrite app_nil_r|].
    intros line (k' & ast' & rule & Hk' & _ & ->)%elem_of_section_rules; simpl.
    apply lookup_delete_Some in Hk' as [Hne _]. congruence.
  - rewrite filter_none; [done|].
    intros line (k' & ast' & rule & Hk' & _ & ->)%elem_of_section_rules; simpl.
    congruence.
Qed.

End LoadAll.

Section SaveThenLoad.

Implicit Types (env : Env) (model : Model) (line : CasbinRule).

Lemma section_lookup model (s' key : string) (ast : Assertion) :
  default ∅ (model !! s') !! key = Some ast →
  ∃ am : AssertionMap, model !! s' = Some am ∧ am !! key = Some ast.
Proof. destruct (model !! s') as [am|]; simpl; [eauto|done]. Qed.

Lemma section_cases (sec : string) : sec ∈ ["p"; "g"] → sec = "p" ∨ sec = "g".
Proof.
  intros [?|Hsec]%elem_of_cons; [by left|].
  apply list_elem_of_singleton in Hsec. by right.
Qed.

(** In a model that follows the convention, the lines of a section are
    filed under that section. *)
Lemma section_rules_section model (s' : string) line :
  well_sectioned model → s' ∈ ["p"; "g"] →
  line ∈ section_rules (default ∅ (model !! s')) →
  section_of (PType line) = s'
  ∧ PType line ≠ ""
  ∧ is_Some (assertion_at model s' (PType line)).
Proof.
  intros Hws Hs' (key & ast & rule & Hk & _ & ->)%elem_of_section_rules; simpl.
  apply section_lookup in Hk as (am & Hm & Hk).
  pose proof (Hws s' am key ast Hs' Hm Hk) as Hsec.
  split; [done|]. split.
  - intros ->. simpl in Hsec. subst s'.
    by apply section_cases in Hs' as [?|?].
  - unfold assertion_at. rewrite Hm; simpl. eauto.
Qed.

Lemma section_rules_filed model (s' sec key : string) :
  well_sectioned model → s' ∈ ["p"; "g"] →
  filter (filed_under sec key) (section_rules (default ∅ (model !! s')))
  = if decide (s' = sec)
    then filter (fun line => PType line = key) (section_rules (default ∅ (model !! s')))
    else [].
Proof.
  intros Hws Hs'. case_decide as Hsec.
  - subst sec. apply filter_iff. intros line Hin.
    destruct (section_rules_section model s' line Hws Hs' Hin) as (Hs & _).
    unfold filed_under. tauto.
  - apply filter_none. intros line Hin [Hs _].
    destruct (section_rules_section model s' line Hws Hs' Hin) as (Hs'' & _).
    congruence.
Qed.

Lemma encoded_rules_typed model line :
  well_sectioned model →
  line ∈ encoded_rules model →
  PType line ≠ ""
  ∧ is_Some (assertion_at (ClearPolicy model) (section_of (PType line)) (PType line)).
Proof.
  intros Hws [Hin|Hin]%elem_of_app.
  - destruct (section_rules_section model "p" line Hws) as (-> & Hne & Ha);
      [left|done|]. split; [done|].
    rewrite assertion_at_ClearPolicy by left. by apply fmap_is_Some.
  - destruct (section_rules_section model "g" line Hws) as (-> & Hne & Ha);
      [right; left|done|]. split; [done|].
    rewrite assertion_at_ClearPolicy by (right; left). by apply fmap_is_Some.
Qed.

(** The lines of a model, filed and decoded, are the rules of the
    model. *)
Lemma tokens_filed model (sec key : string) :
  well_sectioned model → rules_encodable model → sec ∈ ["p"; "g"] →
  line_tokens <$> filter (filed_under sec key) (encoded_rules model)
  ≡ₚ policy_at model sec key.
Proof.
  intros Hws Henc Hsec. unfold encoded_rules.
  rewrite filter_app, fmap_app.
  rewrite (section_rules_filed model "p") by (done || left).
  rewrite (section_rules_filed model "g") by (done || (right; left)).
  assert (Hpol : ∀ s : string, s ∈ ["p"; "g"] →
    line_tokens <$> filter (fun line => PType line = key)
                      (section_rules (default ∅ (model !! s)))
    ≡ₚ policy_at model s key).
  { intros s Hs. rewrite tokens_of_type.
    - unfold policy_at, assertion_at. destruct (model !! s) as [am|]; simpl; [|done].
      by destruct (am !! key).
    - intros ast (am & Hm & Hk)%section_lookup. by apply (Henc s am key). }
  destruct (section_cases sec Hsec) as [-> | ->].
  - rewrite decide_True, decide_False by done. rewrite app_nil_r.
    apply Hpol. left.
  - rewrite decide_False, decide_True by done. simpl.
    apply Hpol. right; left.
Qed.

End SaveThenLoad.

(** The claim C6 as stated fails for a policy type whose first character
    is not its section's: a rule kept under the type "g2" of section "p" is
    saved, and loaded under section "g". *)
Lemma save_then_load_misfiled :
  let model : Model :=
    <["p" := <["p" := mkAssertion []]> (<["g2" := mkAssertion [["alice"; "admin"]]]> ∅)]>
    (<["g" := <["g2" := mkAssertion []]> ∅]> ∅) in
  let r1 := SavePolicy quiet ∅ model in
  let r2 := LoadPolicy quiet (store r1) (ClearPolicy model) in
  ret r1 = None
  ∧ (∃ model', ret r2 = (Return None, model')
       ∧ policy_at model' "p" "g2" = []
       ∧ policy_at model' "g" "g2" = [["alice"; "admin"]])
  ∧ policy_at model "p" "g2" = [["alice"; "admin"]]
  ∧ policy_at model "g" "g2" = [].
Proof.
  split; [vm_compute; reflexivity|]. split; [|split; vm_compute; reflexivity].
  eexists. split; [vm_compute; reflexivity|]. split; vm_compute; reflexivity.
Qed.

(** C6 (amended).  Starting from an empty collection, for every model
    whose policy types begin with the letter of their section ("p" or "g")
    and whose rules have at most six fields, none of them empty (the model
    with the rules [a, b, read] and [c, d, write] under ("p", "p") is one),
    [SavePolicy(model)] followed by [LoadPolicy] into the model cleared of
    its rules reconstructs, under every section and policy type, exactly the
    rules of the model, up to their order.  (The transport does not fail
    and [NewDoc] draws distinct identifiers.) *)
Theorem save_then_load (env1 env2 : Env) (model : Model) :
  no_faults env1 → no_faults env2 →
  NoDup (drawn_ids env1 0 (length (encoded_rules model))) →
  well_sectioned model →
  rules_encodable model →
  let r1 := SavePolicy env1 ∅ model in
  let r2 := LoadPolicy env2 (store r1) (ClearPolicy model) in
  ret r1 = None
  ∧ ∃ model',
      ret r2 = (Return None, model')
      ∧ ∀ sec key, sec ∈ ["p"; "g"] →
          policy_at model' sec key ≡ₚ policy_at model sec key.
Proof.
  intros Hnf1 Hnf2 Hids Hws Henc r1 r2; subst r1 r2.
  pose proof (SavePolicy_lines_Permutation env1 model) as Hperm.
  set (lines := SavePolicy_lines env1 model) in *.
  set (news := new_docs env1 0 lines).
  assert (Hnd : NoDup news.*1).
  { subst news. rewrite new_docs_fst. by rewrite (Permutation_length Hperm). }
  assert (Hempty : kept newQuery (∅ : Collection) = ∅).
  { unfold kept. apply map_filter_empty. }
  (* the save *)
  unfold SavePolicy. fold lines.
  destruct (replace_tx env1 ∅ newQuery lines) as (_ & Hst & Hok).
  fold news in Hst, Hok.
  assert (Hret : ret (RunTransaction env1 ∅
             (iter ← tx_Documents env1 ∅ newQuery;
              _ ← delete_each env1 iter;
              create_each env1 lines 0)) = None).
  { apply Hok; [done..|]. intros id _. by rewrite Hempty. }
  rewrite Hret in Hst. destruct Hst as (Hstore & _ & _).
  rewrite Hempty in Hstore. split; [done|]. rewrite Hstore.
  (* the documents the load reads *)
  assert (Hdata : ∀ s, s ∈ snapshots (create_all news ∅) →
            ∃ line, line ∈ lines ∧ Data s = toDoc line).
  { intros s Hs%elem_of_snapshots.
    apply (lookup_create_all _ _ _ _ Hnd) in Hs as [Hin|[_ He]]; [|done].
    assert (Hd : Data s ∈ news.*2).
    { apply list_elem_of_fmap. by exists (Ref s, Data s). }
    subst news. rewrite new_docs_snd in Hd.
    apply list_elem_of_fmap in Hd as (line & Hd & Hl). eauto. }
  assert (Hall : matching newQuery (create_all news ∅) = snapshots (create_all news ∅)).
  { apply filter_all. intros s Hs. destruct (Hdata s Hs) as (line & Hl & ->).
    apply matches_newQuery, has_type_toDoc.
    rewrite Hperm in Hl. by apply (encoded_rules_typed model line Hws). }
  destruct Hnf2 as (Hi2 & _ & _).
  unfold LoadPolicy. rewrite (Documents_no_fault _ _ _ Hi2), Hall.
  set (docs := arrange (stream_seed env2) (snapshots (create_all news ∅))).
  assert (Hdocs : docs ≡ₚ snapshots (create_all news ∅)) by apply arrange_Permutation.
  rewrite collect_rules_ok; simpl.
  2:{ intros s Hs. rewrite Hdocs in Hs. destruct (Hdata s Hs) as (line & _ & ?). eauto. }
  set (rules := decoded <$> (Data <$> docs)).
  assert (Hrules : rules ≡ₚ encoded_rules model).
  { subst rules. rewrite Hdocs, (Data_snapshots_create_all _ Hnd).
    subst news. rewrite new_docs_snd, <- list_fmap_compose.
    assert (Hid : decoded ∘ toDoc <$> lines = lines).
    { rewrite <- (list_fmap_id lines) at 2. apply list_fmap_ext.
      intros i line _. apply decoded_toDoc. }
    by rewrite Hid. }
  (* the appends *)
  destruct (load_each_ok rules (ClearPolicy model)) as (model' & Hload & Hpol).
  { intros line Hl. rewrite Hrules in Hl. by apply encoded_rules_typed. }
  exists model'. split; [done|]. intros sec key Hsec.
  rewrite Hpol, policy_at_ClearPolicy by done. simpl.
  rewrite Hrules. by apply tokens_filed.
Qed.

Lemma save_then_load_witness :
  let model : Model :=
    <["p" := <["p" := mkAssertion [["a"; "b"; "read"]; ["c"; "d"; "write"]]]> ∅]>
    (<["g" := <["g" := mkAssertion []]> ∅]> ∅) in
  let env2 := mkEnv (fun _ => []) [1%nat] (fun i => "doc" +:+ pretty i)
                None (fun _ => None) None in
  let r1 := SavePolicy quiet ∅ model in
  let r2 := LoadPolicy env2 (store r1) (ClearPolicy model) in
  ret r1 = None
  ∧ ∃ model',
      ret r2 = (Return None, model')
      ∧ ∀ sec key, sec ∈ ["p"; "g"] →
          policy_at model' sec key ≡ₚ policy_at model sec key.
Proof.
  apply (save_then_load quiet).
  - repeat split.
  - repeat split.
  - apply (bool_decide_unpack _). vm_compute. reflexivity.
  - intros sec am key ast Hsec Hm Hk.
    apply section_cases in Hsec as [-> | ->].
    + rewrite lookup_insert_eq in Hm. injection Hm as <-.
      destruct (decide (key = "p")) as [->|Hne]; [done|].
      by rewrite lookup_insert_ne in Hk.
    + rewrite lookup_insert_ne, lookup_insert_eq in Hm by done. injection Hm as <-.
      destruct (decide (key = "g")) as [->|Hne]; [done|].
      by rewrite lookup_insert_ne in Hk.
  - intros sec am key ast Hsec Hm Hk.
    apply section_cases in Hsec as [-> | ->].
    + rewrite lookup_insert_eq in Hm. injection Hm as <-.
      destruct (decide (key = "p")) as [->|Hne];
        [|by rewrite lookup_insert_ne in Hk].
      rewrite lookup_insert_eq in Hk. injection Hk as <-.
      repeat constructor; simpl; (lia || discriminate).
    + rewrite lookup_insert_ne, lookup_insert_eq in Hm by done. injection Hm as <-.
      destruct (decide (key = "g")) as [->|Hne];
        [|by rewrite lookup_insert_ne in Hk].
      rewrite lookup_insert_eq in Hk. injection Hk as <-. constructor.
Defined.

(** * More properties of the code *)

(** ** What a record keeps of a rule *)

Section StoredRule.

Implicit Types (rule : list string) (ptype : string).

Lemma longest_nonempty_prefix_take_pad (n m : nat) (l : list string) :
  longest_nonempty_prefix (take n (l ++ replicate m ""))
  = longest_nonempty_prefix (take n l).
Proof.
  revert n; induction l as [|x l IH]; intros n; simpl.
  - by destruct n, m.
  - destruct n; simpl; [done|]. case_decide; [done|]. by rewrite IH.
Qed.

Lemma fields_savePolicyLine ptype rule :
  fields (savePolicyLine ptype rule) = take 6 (rule ++ replicate 6 "").
Proof. by do 7 (destruct rule as [|? rule]; [reflexivity|]). Qed.

Lemma length_stored_rule rule : (length (stored_rule rule) ≤ 6)%nat.
Proof.
  unfold stored_rule.
  pose proof (prefix_length _ _ (longest_nonempty_prefix_prefix (take 6 rule))) as H.
  rewrite length_take in H. lia.
Qed.

End StoredRule.

(** X1.  Whatever the rule, the record [savePolicyLine] builds holds the
    first six fields of the rule, padded with empty strings, and nothing of
    what follows them; what [loadPolicyLine] reads back from it is the rule
    cut after its sixth field and in front of its first empty field. *)
Theorem savePolicyLine_stored_rule (ptype : string) (rule : list string) :
  fields (savePolicyLine ptype rule) = take 6 (rule ++ replicate 6 "")
  ∧ savePolicyLine ptype rule = savePolicyLine ptype (take 6 rule)
  ∧ line_tokens (savePolicyLine ptype rule) = stored_rule rule.
Proof.
  split; [apply fields_savePolicyLine|]. split.
  - by do 7 (destruct rule as [|? rule]; [reflexivity|]).
  - rewrite line_tokens_longest_prefix, fields_savePolicyLine.
    apply longest_nonempty_prefix_take_pad.
Qed.

(** X2.  The round trip through a record gives the rule back exactly when
    the rule has at most six fields and none of them is empty. *)
Theorem roundtrip_lossless_iff (ptype : string) (rule : list string) :
  line_tokens (savePolicyLine ptype rule) = rule ↔ encodable rule.
Proof.
  split.
  - intros H. assert (Hs : stored_rule rule = rule).
    { rewrite <- H at 2. symmetry.
      rewrite line_tokens_longest_prefix, fields_savePolicyLine.
      apply longest_nonempty_prefix_take_pad. }
    split.
    + rewrite <- Hs. apply length_stored_rule.
    + rewrite <- Hs. apply longest_nonempty_prefix_nonempty.
  - intros [Hlen Hne]. by apply line_tokens_savePolicyLine.
Qed.

(** X3.  Two rules of at most six non-empty fields that are encoded to the
    same record are the same rule of the same policy type. *)
Theorem savePolicyLine_injective
    (ptype ptype' : string) (rule rule' : list string) :
  encodable rule → encodable rule' →
  savePolicyLine ptype rule = savePolicyLine ptype' rule' →
  ptype = ptype' ∧ rule = rule'.
Proof.
  intros Hr Hr' Heq. split.
  - by apply (f_equal PType) in Heq.
  - destruct Hr as [Hlen Hne], Hr' as [Hlen' Hne'].
    rewrite <- (line_tokens_savePolicyLine ptype rule Hlen Hne).
    rewrite <- (line_tokens_savePolicyLine ptype' rule' Hlen' Hne').
    by rewrite Heq.
Qed.

Lemma savePolicyLine_injective_witness :
  "p" = "p" ∧ ["alice"; "data1"; "read"] = ["alice"; "data1"; "read"].
Proof.
  apply (savePolicyLine_injective "p" "p" ["alice"; "data1"; "read"]
           ["alice"; "data1"; "read"]).
  - split; [simpl; lia|repeat constructor; discriminate].
  - split; [simpl; lia|repeat constructor; discriminate].
  - reflexivity.
Defined.

(** Without the bound the encoding is not injective: a seventh field and
    what follows an empty field are lost. *)
Example savePolicyLine_collisions :
  savePolicyLine "p" ["a"; "b"; "c"; "d"; "e"; "f"; "g"]
  = savePolicyLine "p" ["a"; "b"; "c"; "d"; "e"; "f"]
  ∧ line_tokens (savePolicyLine "p" ["alice"; ""; "read"]) = ["alice"].
Proof. split; reflexivity. Qed.

(** ** Adding one rule *)

Section Kept.

Implicit Types (q : Query) (c : Collection) (d : DocData) (id : string).

Lemma kept_ext q q' c :
  (∀ id d, c !! id = Some d → (matches q d ↔ matches q' d)) →
  kept q c = kept q' c.
Proof.
  intros H. apply map_eq; intros id. apply option_eq; intros d.
  rewrite !lookup_kept_Some. split; intros [Hc Hm]; (split; [done|]);
    by rewrite (H id d Hc) in *.
Qed.

Lemma kept_none q c :
  (∀ id d, c !! id = Some d → ¬ matches q d) → kept q c = c.
Proof.
  intros H. apply map_eq; intros id. apply option_eq; intros d.
  rewrite lookup_kept_Some. split; [by intros [? _]|]. intros Hc. split; [done|].
  by apply (H id).
Qed.

Lemma kept_idem q c : kept q (kept q c) = kept q c.
Proof.
  apply kept_none. intros id d Hk. by apply lookup_kept_Some in Hk as [_ ?].
Qed.

Lemma kept_insert_hit q c id d :
  matches q d → c !! id = None → kept q (<[id := d]> c) = kept q c.
Proof.
  intros Hm Hc. apply map_eq; intros i. apply option_eq; intros d'.
  rewrite !lookup_kept_Some. destruct (decide (i = id)) as [->|Hne].
  - rewrite lookup_insert_eq, Hc. split; [|by intros [? _]].
    intros [[= <-] Hn]. by destruct Hn.
  - by rewrite lookup_insert_ne.
Qed.

Lemma RemovePolicy_hit_toDoc (line : CasbinRule) :
  PType line ≠ "" → RemovePolicy_hit line (toDoc line).
Proof. intros Hne. by repeat split. Qed.

Lemma AddPolicy_result env c (sec ptype : string) (rule : list string) :
  let id := new_id env 0 in
  let d := toDoc (savePolicyLine ptype rule) in
  let r := AddPolicy env c sec ptype rule in
  match ret r with
  | None => c !! id = None ∧ store r = <[id := d]> c
  | Some _ => store r = c
  end.
Proof.
  intros id d r; subst id d r. unfold AddPolicy, RunTransaction, tx_Create, tx_write.
  destruct (write_fault env _); simpl; [done|].
  destruct (commit_fault env); simpl; [done|].
  by destruct (c !! new_id env 0).
Qed.

Lemma RemovePolicy_result env c (sec ptype : string) (rule : list string) :
  let r := RemovePolicy env c sec ptype rule in
  match ret r with
  | None => store r = kept (RemovePolicy_query (savePolicyLine ptype rule)) c
  | Some _ => store r = c
  end.
Proof.
  intros r; subst r. unfold RemovePolicy.
  by destruct (delete_tx env c (RemovePolicy_query (savePolicyLine ptype rule)))
    as (_ & Hst & _).
Qed.

End Kept.

(** X4.  [AddPolicy] runs one transaction, issues no query and buffers at
    most one write, the creation of the encoded rule under the identifier
    [NewDoc] drew.  If it returns no error, that identifier was free and the
    collection has gained exactly this one document; if it returns an error
    the collection is as it was.  It never overwrites: when the identifier
    is taken the call fails.  Unless the transport fails, a free identifier
    is all it needs to succeed. *)
Theorem AddPolicy_creates_one
    (env : Env) (c : Collection) (sec ptype : string) (rule : list string) :
  let id := new_id env 0 in
  let d := toDoc (savePolicyLine ptype rule) in
  let r := AddPolicy env c sec ptype rule in
  transactions (trace r) = 1%nat
  ∧ queries (trace r) = []
  ∧ (∀ w, w ∈ buffered (trace r) → w = WCreate id d)
  ∧ match ret r with
    | None => c !! id = None ∧ store r = <[id := d]> c
    | Some _ => store r = c
    end
  ∧ (is_Some (c !! id) → ret r ≠ None)
  ∧ (no_faults env → c !! id = None → ret r = None).
Proof.
  intros id d r; subst id d r.
  pose proof (AddPolicy_result env c sec ptype rule) as Hres. cbv zeta in Hres.
  split; [|split; [|split; [|split; [|split]]]].
  - by destruct (AddPolicy_trace env c sec ptype rule) as [-> | ->].
  - by destruct (AddPolicy_trace env c sec ptype rule) as [-> | ->].
  - intros w.
    destruct (AddPolicy_trace env c sec ptype rule) as [-> | ->]; simpl.
    + intros Hw; by apply elem_of_nil in Hw.
    + by intros ->%list_elem_of_singleton.
  - done.
  - intros [d' Hd'] Hret. rewrite Hret in Hres. destruct Hres as [Hnone _].
    congruence.
  - intros (_ & Hw & Hc) Hfree.
    unfold AddPolicy, RunTransaction, tx_Create, tx_write.
    by rewrite Hw, Hc; simpl; rewrite Hfree.
Qed.

(** X5.  A rule that [AddPolicy] has just stored is removed again by
    [RemovePolicy] of the same policy type and rule, however many fields the
    rule has: if both calls return no error, the collection is the original
    one without the records that matched the rule, and it is the original
    one if none did.  With the empty policy type it is the other way round:
    the record that was added stays. *)
Theorem AddPolicy_then_RemovePolicy
    (env1 env2 : Env) (c : Collection) (sec ptype : string) (rule : list string) :
  let line := savePolicyLine ptype rule in
  let r1 := AddPolicy env1 c sec ptype rule in
  let r2 := RemovePolicy env2 (store r1) sec ptype rule in
  ret r1 = None → ret r2 = None →
  (ptype ≠ "" → store r2 = kept (RemovePolicy_query line) c)
  ∧ (ptype ≠ "" → (∀ id d, c !! id = Some d → ¬ RemovePolicy_hit line d) →
     store r2 = c)
  ∧ (ptype = "" → store r2 = store r1
                  ∧ store r2 !! new_id env1 0 = Some (toDoc line)).
Proof.
  intros line r1 r2 H1 H2; subst line r1 r2.
  pose proof (AddPolicy_result env1 c sec ptype rule) as Ha.
  pose proof (RemovePolicy_result env2 (store (AddPolicy env1 c sec ptype rule))
                sec ptype rule) as Hr.
  cbv zeta in Ha, Hr. rewrite H1 in Ha. rewrite H2 in Hr.
  set (line := savePolicyLine ptype rule) in *.
  set (r1 := AddPolicy env1 c sec ptype rule) in *.
  set (r2 := RemovePolicy env2 (store r1) sec ptype rule) in *.
  destruct Ha as [Hfree Hs1].
  assert (Hkept : ptype ≠ "" → store r2 = kept (RemovePolicy_query line) c).
  { intros Hne. rewrite Hr, Hs1. apply kept_insert_hit; [|done].
    apply matches_RemovePolicy_query. by apply RemovePolicy_hit_toDoc. }
  split; [done|]. split.
  - intros Hne Hnohit. rewrite (Hkept Hne). apply kept_none.
    intros id d Hc. rewrite matches_RemovePolicy_query. by apply (Hnohit id).
  - intros ->. assert (Hsame : store r2 = store r1).
    { rewrite Hr. apply kept_none. intros id d _.
      rewrite matches_RemovePolicy_query. by intros [Hne _]. }
    split; [done|]. rewrite Hsame, Hs1. apply (lookup_insert_eq c).
Qed.

Lemma AddPolicy_then_RemovePolicy_witness :
  let c : Collection := <["r1" := toDoc (savePolicyLine "p" ["bob"; "data2"; "write"])]> ∅ in
  let rule := ["alice"; "data1"; "read"; "a"; "b"; "c"; "d"] in
  let r1 := AddPolicy quiet c "p" "p" rule in
  let r2 := RemovePolicy quiet (store r1) "p" "p" rule in
  store r2 = c.
Proof.
  intros c rule r1 r2.
  destruct (AddPolicy_then_RemovePolicy quiet quiet c "p" "p" rule)
    as (_ & Hc & _); [reflexivity|reflexivity|].
  apply Hc; [discriminate|].
  intros id d Hid (_ & _ & H0 & _). subst c.
  destruct (decide (id = "r1")) as [->|Hne].
  - rewrite lookup_insert_eq in Hid. injection Hid as <-. discriminate.
  - by rewrite lookup_insert_ne in Hid.
Defined.

(** ** Removing by filter *)

Section FilteredRemoval.

Implicit Types (env : Env) (c : Collection) (d : DocData)
  (selector : gmap string string) (fieldIndex : Z) (fieldValues : list string).

(** What a query built from a selector selects does not depend on the
    order in which the selector was traversed. *)
Lemma matches_selector_query env selector d :
  matches (selector_query env selector) d
  ↔ has_type d ∧ ∀ name v, selector !! name = Some v → field_is d name v.
Proof.
  unfold selector_query. rewrite foldl_Where. unfold matches at 1.
  rewrite forallb_app, andb_True. fold (matches newQuery d).
  rewrite matches_newQuery, forallb_True, Forall_fmap, Forall_forall.
  split; intros [Ht Hall]; (split; [done|]).
  - intros name v Hsel. apply holds_eq. apply (Hall (name, v)).
    by apply elem_of_range.
  - intros [name v] Hin%elem_of_range. apply holds_eq; simpl. by apply Hall.
Qed.

Lemma RemoveFilteredPolicy_matches env selector (ptype : string) fieldIndex fieldValues d :
  (∀ name v,
     selector !! name = Some v ↔
       (name = "p_type" ∧ v = ptype)
       ∨ ∃ k, (0 ≤ k ≤ 5)%Z ∧ name = field_name k
              ∧ constrains fieldIndex fieldValues k v) →
  matches (selector_query env selector) d
  ↔ RemoveFilteredPolicy_hit ptype fieldIndex fieldValues d.
Proof.
  intros Hsel. rewrite matches_selector_query. unfold RemoveFilteredPolicy_hit. split.
  - intros [(s & Hs & Hne) Hall].
    assert (Ht : field_is d "p_type" ptype) by (apply Hall, Hsel; by left).
    split; [unfold field_is in Ht; congruence|]. split; [done|].
    intros k v Hk Hc. apply Hall, Hsel. right. by exists k.
  - intros (Hne & Ht & Hall). split; [by exists ptype|].
    intros name v [[-> ->]|(k & Hk & -> & Hc)]%Hsel; [done|]. by apply Hall.
Qed.

(** The outcome of [RemoveFilteredPolicy], in terms of the records it is
    after. *)
Lemma RemoveFilteredPolicy_outcome env c (sec ptype : string) fieldIndex fieldValues :
  Go.is_int fieldIndex →
  (Go.len fieldValues < Go.max_slice_len)%Z →
  ∃ r q,
    RemoveFilteredPolicy env c sec ptype fieldIndex fieldValues = Some r
    ∧ (∀ d, matches q d ↔ RemoveFilteredPolicy_hit ptype fieldIndex fieldValues d)
    ∧ (∃ docs, trace r = [EvTransaction; EvQuery q] ++ (EvWrite <$> deletions docs)
               ∧ ∀ s, s ∈ docs → c !! Ref s = Some (Data s) ∧ matches q (Data s))
    ∧ match ret r with
      | None => store r = kept q c
      | Some _ => store r = c
      end
    ∧ (no_faults env → ret r = None).
Proof.
  intros Hi Hl.
  destruct (RemoveFilteredPolicy_selector_lookup ptype fieldIndex fieldValues Hi Hl)
    as (selector & Hsel & Hlookup).
  unfold RemoveFilteredPolicy. rewrite Hsel; simpl.
  eexists _, (selector_query env selector). split; [done|].
  split; [intros d; by apply RemoveFilteredPolicy_matches|].
  apply delete_tx.
Qed.

Lemma no_constraint_cases fieldIndex fieldValues :
  Forall (fun v => v = "") fieldValues
  ∨ (6 ≤ fieldIndex)%Z
  ∨ (fieldIndex + Go.len fieldValues ≤ 0)%Z →
  ∀ k v, (0 ≤ k ≤ 5)%Z → ¬ constrains fieldIndex fieldValues k v.
Proof.
  intros Hcase k v Hk (Hw & Hv & Hne).
  destruct Hcase as [Hall|[Hge|Hle]]; [|lia..].
  rewrite Forall_forall in Hall. apply Hne, Hall.
  by eapply list_elem_of_lookup_2.
Qed.

(** The fields of the encoded line, by position. *)
Lemma fields_savePolicyLine_lookup (ptype : string) (rule : list string) (k : nat) v :
  (k < 6)%nat → rule !! k = Some v →
  fields (savePolicyLine ptype rule) !! k = Some v.
Proof.
  intros Hk Hv. rewrite fields_savePolicyLine, lookup_take_lt by done.
  by apply lookup_app_l_Some.
Qed.

Lemma RemovePolicy_hit_fields (line : CasbinRule) d (k : Z) v :
  RemovePolicy_hit line d → (0 ≤ k < 5)%Z →
  fields line !! Z.to_nat k = Some v →
  field_is d (field_name k) v.
Proof.
  intros (_ & _ & H0 & H1 & H2 & H3 & H4) Hk.
  assert (Hcases : (k = 0 ∨ k = 1 ∨ k = 2 ∨ k = 3 ∨ k = 4)%Z) by lia.
  destruct Hcases as [-> | [-> | [-> | [-> | ->]]]]; simpl; by intros [= <-].
Qed.

Lemma RemovePolicy_hit_filtered (ptype : string) (rule : list string) d :
  RemovePolicy_hit (savePolicyLine ptype rule) d →
  RemoveFilteredPolicy_hit ptype 0 (take 5 rule) d.
Proof.
  intros Hhit. pose proof Hhit as (Hne & Ht & _).
  split; [done|]. split; [done|].
  intros k v Hk (Hw & Hv & Hv'). rewrite Z.sub_0_r in Hv.
  apply lookup_take_Some in Hv as [Hv Hlt].
  apply (RemovePolicy_hit_fields _ _ _ _ Hhit); [lia|].
  apply fields_savePolicyLine_lookup; [lia|done].
Qed.

Lemma RemoveFilteredPolicy_hit_full (ptype : string) (rule : list string) d :
  (5 ≤ length rule)%nat → Forall (fun v => v ≠ "") (take 5 rule) →
  RemoveFilteredPolicy_hit ptype 0 (take 5 rule) d →
  RemovePolicy_hit (savePolicyLine ptype rule) d.
Proof.
  intros Hlen Hne (Hp & Ht & Hall).
  do 5 (destruct rule as [|? rule]; [simpl in Hlen; lia|]).
  simpl in Hne. rewrite take_0 in Hne.
  apply Forall_cons in Hne as [? Hne]. apply Forall_cons in Hne as [? Hne].
  apply Forall_cons in Hne as [? Hne]. apply Forall_cons in Hne as [? Hne].
  apply Forall_cons in Hne as [? _].
  assert (Hc : ∀ (k : Z) v, (0 ≤ k < 5)%Z →
            [s; s0; s1; s2; s3] !! Z.to_nat k = Some v →
            field_is d (field_name k) v).
  { intros k v Hk Hv. apply Hall; [lia|]. unfold constrains, Go.len.
    rewrite Z.sub_0_r. simpl. rewrite take_0. split; [simpl; lia|]. split; [done|].
    assert (Hcases : (k = 0 ∨ k = 1 ∨ k = 2 ∨ k = 3 ∨ k = 4)%Z) by lia.
    destruct Hcases as [-> | [-> | [-> | [-> | ->]]]]; simpl in Hv;
      by injection Hv as <-. }
  split; [done|]. split; [done|].
  repeat split.
  - by apply (Hc 0%Z).
  - by apply (Hc 1%Z).
  - by apply (Hc 2%Z).
  - by apply (Hc 3%Z).
  - by apply (Hc 4%Z).
Qed.

End FilteredRemoval.

(** X6.  [RemoveFilteredPolicy] runs one transaction that deletes nothing
    but records whose type is the given policy type, not empty, and whose
    field at every constrained position holds the value supplied for it.
    If the call returns no error exactly those records are gone and every
    other record is as it was; if it returns an error the collection is as
    it was.  Unless the transport fails it returns no error, whether or not
    any record matches. *)
Theorem RemoveFilteredPolicy_deletes_matching
    (env : Env) (c : Collection) (sec ptype : string)
    (fieldIndex : Z) (fieldValues : list string) :
  Go.is_int fieldIndex →
  (Go.len fieldValues < Go.max_slice_len)%Z →
  ∃ r,
    RemoveFilteredPolicy env c sec ptype fieldIndex fieldValues = Some r
    ∧ transactions (trace r) = 1%nat
    ∧ (∀ w, w ∈ buffered (trace r) →
         ∃ id d, w = WDelete id ∧ c !! id = Some d
                 ∧ RemoveFilteredPolicy_hit ptype fieldIndex fieldValues d)
    ∧ match ret r with
      | None =>
          ∀ id d, store r !! id = Some d ↔
            c !! id = Some d ∧ ¬ RemoveFilteredPolicy_hit ptype fieldIndex fieldValues d
      | Some _ => store r = c
      end
    ∧ (no_faults env → ret r = None).
Proof.
  intros Hi Hl.
  destruct (RemoveFilteredPolicy_outcome env c sec ptype fieldIndex fieldValues Hi Hl)
    as (r & q & Hr & Hm & (docs & Htr & Hdocs) & Hst & Hok).
  exists r. split; [done|]. split; [|split; [|split; [|done]]].
  - rewrite Htr. rewrite <- (app_nil_r (EvWrite <$> deletions docs)).
    apply (transactions_trace _ docs []).
  - intros w. rewrite Htr, buffered_app, buffered_writes; simpl.
    intros (s & -> & Hs)%elem_of_deletions.
    destruct (Hdocs s Hs) as [Hc Hq]. exists (Ref s), (Data s).
    by rewrite <- Hm.
  - destruct (ret r); [done|]. rewrite Hst. intros id d.
    by rewrite lookup_kept_Some, Hm.
Qed.

Lemma RemoveFilteredPolicy_deletes_matching_witness :
  let c : Collection :=
    <["a" := toDoc (savePolicyLine "p" ["alice"; "data1"; "read"])]>
    (<["b" := toDoc (savePolicyLine "p" ["bob"; "data2"; "write"])]> ∅) in
  ∃ r,
    RemoveFilteredPolicy quiet c "p" "p" 1 ["data1"] = Some r
    ∧ ret r = None
    ∧ store r !! "a" = None
    ∧ store r !! "b" = Some (toDoc (savePolicyLine "p" ["bob"; "data2"; "write"])).
Proof.
  intros c.
  destruct (RemoveFilteredPolicy_deletes_matching quiet c "p" "p" 1 ["data1"])
    as (r & Hr & _ & _ & Hst & Hok).
  - unfold Go.is_int, Go.min_int, Go.max_int. lia.
  - reflexivity.
  - exists r. split; [done|]. vm_compute in Hr. injection Hr as <-.
    split; [reflexivity|]. split; vm_compute; reflexivity.
Defined.

(** X7.  When no position is constrained, because every supplied value is
    empty (or none is supplied) or because the window lies outside the
    fields 0 to 5, a successful [RemoveFilteredPolicy] removes every record
    of the policy type and nothing else. *)
Theorem RemoveFilteredPolicy_unconstrained
    (env : Env) (c : Collection) (sec ptype : string)
    (fieldIndex : Z) (fieldValues : list string) :
  Go.is_int fieldIndex →
  (Go.len fieldValues < Go.max_slice_len)%Z →
  Forall (fun v => v = "") fieldValues
  ∨ (6 ≤ fieldIndex)%Z
  ∨ (fieldIndex + Go.len fieldValues ≤ 0)%Z →
  ∃ r,
    RemoveFilteredPolicy env c sec ptype fieldIndex fieldValues = Some r
    ∧ (ret r = None →
       ∀ id d, store r !! id = Some d ↔
         c !! id = Some d ∧ ¬ (ptype ≠ "" ∧ field_is d "p_type" ptype)).
Proof.
  intros Hi Hl Hcase.
  destruct (RemoveFilteredPolicy_outcome env c sec ptype fieldIndex fieldValues Hi Hl)
    as (r & q & Hr & Hm & _ & Hst & _).
  exists r. split; [done|]. intros Hret. rewrite Hret in Hst. rewrite Hst.
  intros id d. rewrite lookup_kept_Some, Hm. unfold RemoveFilteredPolicy_hit.
  pose proof (no_constraint_cases fieldIndex fieldValues Hcase) as Hnone.
  split; intros [Hc Hn]; (split; [done|]); intros H; apply Hn.
  - destruct H as [? ?]. repeat split; try done. intros k v Hk Hcon.
    by destruct (Hnone k v Hk).
  - by destruct H as (? & ? & _).
Qed.

Lemma RemoveFilteredPolicy_unconstrained_witness :
  let c : Collection :=
    <["a" := toDoc (savePolicyLine "p" ["alice"; "data1"; "read"])]>
    (<["b" := toDoc (savePolicyLine "p2" ["bob"; "data2"; "write"])]> ∅) in
  ∃ r,
    RemoveFilteredPolicy quiet c "p" "p" 0 [""; ""] = Some r
    ∧ ret r = None
    ∧ store r = <["b" := toDoc (savePolicyLine "p2" ["bob"; "data2"; "write"])]> ∅.
Proof.
  intros c.
  destruct (RemoveFilteredPolicy_unconstrained quiet c "p" "p" 0 [""; ""])
    as (r & Hr & _).
  - unfold Go.is_int, Go.min_int, Go.max_int. lia.
  - reflexivity.
  - left. by repeat constructor.
  - exists r. split; [done|]. vm_compute in Hr. injection Hr as <-.
    split; [reflexivity|]. vm_compute; reflexivity.
Defined.

(** X8.  [RemovePolicy] is the stricter of the two removals: every record
    it is after, [RemoveFilteredPolicy] with index 0 and the first five
    fields of the rule is after too, so what the latter leaves, the former
    leaves as well.  The two agree when the rule has five non-empty fields
    or more; a shorter rule makes [RemovePolicy] demand empty fields where
    the filter accepts anything. *)
Theorem RemovePolicy_stricter_than_filter
    (env1 env2 : Env) (c : Collection) (sec ptype : string) (rule : list string) :
  let r1 := RemovePolicy env1 c sec ptype rule in
  ∃ r2,
    RemoveFilteredPolicy env2 c sec ptype 0 (take 5 rule) = Some r2
    ∧ (∀ d, RemovePolicy_hit (savePolicyLine ptype rule) d →
            RemoveFilteredPolicy_hit ptype 0 (take 5 rule) d)
    ∧ (ret r1 = None → ret r2 = None → store r2 ⊆ store r1)
    ∧ (ret r1 = None → ret r2 = None →
       (5 ≤ length rule)%nat → Forall (fun v => v ≠ "") (take 5 rule) →
       store r2 = store r1).
Proof.
  intros r1.
  destruct (RemoveFilteredPolicy_outcome env2 c sec ptype 0 (take 5 rule))
    as (r2 & q & Hr & Hm & _ & Hst & _).
  { unfold Go.is_int, Go.min_int, Go.max_int. lia. }
  { unfold Go.len, Go.max_slice_len. rewrite length_take. lia. }
  pose proof (RemovePolicy_result env1 c sec ptype rule) as Hst1.
  cbv zeta in Hst1. fold r1 in Hst1.
  exists r2. split; [done|]. split; [apply RemovePolicy_hit_filtered|]. split.
  - intros H1 H2. rewrite H1 in Hst1. rewrite H2 in Hst. rewrite Hst, Hst1.
    apply map_subseteq_spec. intros id d. rewrite !lookup_kept_Some.
    intros [Hc Hn]. split; [done|]. intros Hq. apply Hn, Hm.
    apply RemovePolicy_hit_filtered. by apply matches_RemovePolicy_query.
  - intros H1 H2 Hlen Hne. rewrite H1 in Hst1. rewrite H2 in Hst.
    rewrite Hst, Hst1. apply kept_ext. intros id d _.
    rewrite Hm, matches_RemovePolicy_query. split.
    + by apply RemoveFilteredPolicy_hit_full.
    + apply RemovePolicy_hit_filtered.
Qed.

(** A short rule shows the difference: [RemovePolicy] of [alice] alone
    leaves the rule [alice, data1, read], the filter on [alice] removes
    it. *)
Example RemovePolicy_short_rule :
  let c : Collection :=
    <["a" := toDoc (savePolicyLine "p" ["alice"; "data1"; "read"])]> ∅ in
  store (RemovePolicy quiet c "p" "p" ["alice"]) = c
  ∧ (store <$> RemoveFilteredPolicy quiet c "p" "p" 0 ["alice"]) = Some ∅.
Proof. split; vm_compute; reflexivity. Qed.

(** X9.  Removing is idempotent: after a [RemovePolicy] that returned no
    error, a second [RemovePolicy] of the same rule leaves the collection as
    the first one left it, and so for [RemoveFilteredPolicy], whatever the
    orders and the failures of the second run. *)
Theorem removal_idempotent
    (env1 env2 : Env) (c : Collection) (sec ptype : string) (rule : list string)
    (fieldIndex : Z) (fieldValues : list string) :
  Go.is_int fieldIndex →
  (Go.len fieldValues < Go.max_slice_len)%Z →
  (let r1 := RemovePolicy env1 c sec ptype rule in
   ret r1 = None →
   store (RemovePolicy env2 (store r1) sec ptype rule) = store r1)
  ∧ (∃ r1,
       RemoveFilteredPolicy env1 c sec ptype fieldIndex fieldValues = Some r1
       ∧ (ret r1 = None →
          ∃ r2,
            RemoveFilteredPolicy env2 (store r1) sec ptype fieldIndex fieldValues
              = Some r2
            ∧ store r2 = store r1)).
Proof.
  intros Hi Hl. split.
  - intros r1 H1.
    pose proof (RemovePolicy_result env1 c sec ptype rule) as Hs1.
    pose proof (RemovePolicy_result env2 (store r1) sec ptype rule) as Hs2.
    cbv zeta in Hs1, Hs2. fold r1 in Hs1. rewrite H1 in Hs1.
    destruct (ret (RemovePolicy env2 (store r1) sec ptype rule)); [done|].
    rewrite Hs2, Hs1. apply kept_idem.
  - destruct (RemoveFilteredPolicy_outcome env1 c sec ptype fieldIndex fieldValues Hi Hl)
      as (r1 & q1 & Hr1 & Hm1 & _ & Hst1 & _).
    exists r1. split; [done|]. intros H1. rewrite H1 in Hst1.
    destruct (RemoveFilteredPolicy_outcome env2 (store r1) sec ptype
                fieldIndex fieldValues Hi Hl)
      as (r2 & q2 & Hr2 & Hm2 & _ & Hst2 & _).
    exists r2. split; [done|]. destruct (ret r2); [done|].
    rewrite Hst2, Hst1. rewrite (kept_ext q2 q1).
    + apply kept_idem.
    + intros id d _. by rewrite Hm1, Hm2.
Qed.

Lemma removal_idempotent_witness :
  let c : Collection :=
    <["a" := toDoc (savePolicyLine "p" ["alice"; "data1"; "read"])]>
    (<["b" := toDoc (savePolicyLine "p" ["bob"; "data2"; "write"])]> ∅) in
  let r1 := RemovePolicy quiet c "p" "p" ["alice"; "data1"; "read"] in
  store (RemovePolicy quiet (store r1) "p" "p" ["alice"; "data1"; "read"])
  = store r1.
Proof.
  intros c r1.
  destruct (removal_idempotent quiet quiet c "p" "p" ["alice"; "data1"; "read"]
              0 []) as [H _].
  - unfold Go.is_int, Go.min_int, Go.max_int. lia.
  - reflexivity.
  - apply H. reflexivity.
Defined.

(** ** Loading into a model that already holds rules *)

Section LoadOutcome.

Implicit Types (env : Env) (c : Collection) (line : CasbinRule) (model : Model)
  (rules : list CasbinRule).

Lemma loaded_nil model : loaded model [] model.
Proof. intros s k. by rewrite app_nil_r. Qed.

Lemma loaded_cons model line model1 rules model' :
  loaded model [line] model1 → loaded model1 rules model' →
  loaded model (line :: rules) model'.
Proof.
  intros H1 H2 s k. rewrite H2, H1, <- app_assoc, <- fmap_app.
  by rewrite <- filter_app.
Qed.

(** [loadPolicyLine] on a record of a non-empty type: it appends the rule
    if the model holds the type, and panics if it does not. *)
Lemma loadPolicyLine_cases line model :
  PType line ≠ "" →
  match loadPolicyLine line model with
  | Some model' =>
      knows model line ∧ loaded model [line] model'
      ∧ ∀ l, knows model' l ↔ knows model l
  | None => ¬ knows model line
  end.
Proof.
  intros Ht. destruct (decide (knows model line)) as [Hk|Hk].
  - destruct (loadPolicyLine_policy_at line model Ht Hk) as (model' & -> & Hp & Hd).
    split; [done|]. split.
    + intros s k. rewrite Hp, filter_cons, filter_nil. by case_decide.
    + intros l. apply Hd.
  - assert (loadPolicyLine line model = None) as ->; [|done].
    unfold loadPolicyLine. rewrite slice_to_1 by done; simpl.
    unfold append_policy. unfold knows, assertion_at in Hk.
    destruct (model !! section_of (PType line)) as [am|]; simpl in *; [|done].
    destruct (am !! PType line); [|done]. destruct Hk. eauto.
Qed.

(** The appending loop: it runs to the end if the model holds every type,
    and stops at the first record whose type it does not hold, with the
    rules before it appended. *)
Lemma load_each_cases rules model :
  Forall (fun l => PType l ≠ "") rules →
  match load_each rules model with
  | (Return None, model') =>
      Forall (knows model) rules ∧ loaded model rules model'
  | (Panic, model') =>
      ∃ pre line post,
        rules = pre ++ line :: post
        ∧ Forall (knows model) pre ∧ ¬ knows model line
        ∧ loaded model pre model'
  | (Return (Some _), _) => False
  end.
Proof.
  intros Ht. revert model.
  induction Ht as [|line rules Hl Ht IH]; intros model; simpl.
  - split; [constructor|apply loaded_nil].
  - pose proof (loadPolicyLine_cases line model Hl) as Hc.
    destruct (loadPolicyLine line model) as [model1|].
    + destruct Hc as (Hk & H1 & Hkn). specialize (IH model1).
      destruct (load_each rules model1) as [[[e|]|] model'].
      * done.
      * destruct IH as (Hall & Hld). split.
        -- constructor; [done|]. eapply Forall_impl; [exact Hall|].
           intros l. apply Hkn.
        -- by eapply loaded_cons.
      * destruct IH as (pre & l & post & -> & Hpre & Hn & Hld).
        exists (line :: pre), l, post. split; [done|]. split; [|split].
        -- constructor; [done|]. eapply Forall_impl; [exact Hpre|].
           intros l'. apply Hkn.
        -- by rewrite <- Hkn.
        -- by eapply loaded_cons.
    + exists [], line, rules. split; [done|]. split; [constructor|].
      split; [done|apply loaded_nil].
Qed.

(** The reading loop returns rules only if the stream held no error and
    every document decoded; the rules are the decoded documents, in the
    order of the stream. *)
Lemma collect_rules_inr (items : list (Go.error + DocumentSnapshot)) acc rules :
  collect_rules items acc = inr rules →
  ∃ docs,
    items = inr <$> docs
    ∧ rules = acc ++ (decoded <$> (Data <$> docs))
    ∧ Forall (fun s => DataTo (Data s) = inr (decoded (Data s))) docs.
Proof.
  revert acc; induction items as [|[e|s] items IH]; intros acc; simpl.
  - intros [= <-]. exists []. by rewrite app_nil_r.
  - done.
  - destruct (DataTo (Data s)) as [e|rule] eqn:Hd; [done|].
    intros (docs & -> & -> & Hall)%IH. exists (s :: docs).
    assert (decoded (Data s) = rule) as Hdec by (unfold decoded; by rewrite Hd).
    split; [done|]. split.
    + simpl. by rewrite Hdec, <- app_assoc.
    + constructor; [by rewrite Hdec|done].
Qed.

Lemma collect_rules_decodable (docs : list DocumentSnapshot) acc :
  Forall (fun s => ∃ line, DataTo (Data s) = inr line) docs →
  collect_rules (inr <$> docs) acc = inr (acc ++ (decoded <$> (Data <$> docs))).
Proof.
  intros Hall. revert acc.
  induction Hall as [|s docs [line Hl] _ IH]; intros acc; simpl.
  - by rewrite app_nil_r.
  - rewrite Hl, IH. unfold decoded at 2. by rewrite Hl, <- app_assoc.
Qed.

(** What [LoadPolicy] read when it did not return an error. *)
Lemma LoadPolicy_read env c model :
  (∀ err, (ret (LoadPolicy env c model)).1 ≠ Return (Some err)) →
  ∃ docs,
    Documents env newQuery c = inr <$> docs
    ∧ docs ≡ₚ matching newQuery c
    ∧ Forall (fun s => DataTo (Data s) = inr (decoded (Data s))) docs
    ∧ Forall (fun l => PType l ≠ "") (decoded <$> (Data <$> docs))
    ∧ ret (LoadPolicy env c model) = load_each (decoded <$> (Data <$> docs)) model.
Proof.
  unfold LoadPolicy.
  destruct (collect_rules (Documents env newQuery c) []) as [e|rules] eqn:Hc; simpl.
  - intros H. by destruct (H e).
  - intros _. pose proof Hc as Hty.
    apply collect_rules_typed in Hty; [|..|constructor].
    2:{ intros s Hs. apply Documents_inr in Hs as [_ Hm]. by apply matches_newQuery. }
    apply collect_rules_inr in Hc as (docs & Hdocs & -> & Hall).
    exists docs. split; [done|]. split; [by apply (Documents_all_inr env)|].
    done.
Qed.

End LoadOutcome.



(** X11.  A panic of [LoadPolicy] leaves the model partly loaded.  The
    panic means the stream was read to its end without an error and some
    record has a non-empty type that the model does not hold; the rules of
    the records before the first such record, in the order of the stream,
    have been appended, those after it have not. *)
Theorem LoadPolicy_panic_partial
    (env : Env) (c : Collection) (model model' : Model) :
  ret (LoadPolicy env c model) = (Panic, model') →
  ∃ docs pre line post,
    Documents env newQuery c = inr <$> docs
    ∧ decoded <$> (Data <$> docs) = pre ++ line :: post
    ∧ Forall (knows model) pre
    ∧ PType line ≠ "" ∧ ¬ knows model line
    ∧ loaded model pre model'.
Proof.
  intros Hret.
  destruct (LoadPolicy_read env c model) as (docs & Hdocs & _ & _ & Hty & Hload).
  { intros err. by rewrite Hret. }
  pose proof (load_each_cases _ model Hty) as Hcases.
  rewrite <- Hload, Hret in Hcases.
  destruct Hcases as (pre & line & post & Heq & Hpre & Hn & Hld).
  exists docs, pre, line, post. repeat split; try done.
  rewrite Heq in Hty. apply Forall_app in Hty as [_ Hty].
  by apply Forall_cons in Hty as [? _].
Qed.

Lemma LoadPolicy_panic_partial_witness :
  let c : Collection :=
    <["a" := toDoc (savePolicyLine "p" ["alice"; "data1"; "read"])]>
    (<["b" := toDoc (savePolicyLine "p2" ["bob"; "data2"; "write"])]> ∅) in
  ∃ docs pre line post,
    Documents quiet newQuery c = inr <$> docs
    ∧ decoded <$> (Data <$> docs) = pre ++ line :: post
    ∧ Forall (knows sample_model) pre
    ∧ PType line ≠ "" ∧ ¬ knows sample_model line
    ∧ loaded sample_model pre (ret (LoadPolicy quiet c sample_model)).2.
Proof.
  intros c.
  apply (LoadPolicy_panic_partial quiet c sample_model).
  vm_compute; reflexivity.
Defined.

(** X12.  When the stream does not fail and every record with a non-empty
    type decodes, [LoadPolicy] returns no error exactly when the model holds
    the type of every such record, and panics exactly when it lacks the
    type of one; it never returns an error then. *)
Theorem LoadPolicy_completes_iff
    (env : Env) (c : Collection) (model : Model) :
  iter_fault env = None →
  (∀ id d, c !! id = Some d → has_type d → ∃ line, DataTo d = inr line) →
  let r := LoadPolicy env c model in
  ((∃ model', ret r = (Return None, model'))
   ↔ ∀ id d, c !! id = Some d → has_type d → knows model (decoded d))
  ∧ ((∃ model', ret r = (Panic, model'))
     ↔ ∃ id d, c !! id = Some d ∧ has_type d ∧ ¬ knows model (decoded d))
  ∧ ∀ err, (ret r).1 ≠ Return (Some err).
Proof.
  intros Hnf Hdec r; subst r.
  assert (Hne : ∀ err, (ret (LoadPolicy env c model)).1 ≠ Return (Some err)).
  { unfold LoadPolicy. rewrite (Documents_no_fault _ _ _ Hnf).
    rewrite collect_rules_decodable; simpl.
    - intros err H. destruct (load_each _ model) as [k m] eqn:Hl. simpl in H.
      subst k. by apply load_each_no_error in Hl.
    - apply Forall_forall. intros s Hs.
      rewrite arrange_Permutation in Hs. apply elem_of_matching in Hs as [Hc Hm].
      apply (Hdec (Ref s)); [done|]. by apply matches_newQuery. }
  destruct (LoadPolicy_read env c model Hne) as (docs & _ & Hperm & _ & Hty & Hload).
  pose proof (load_each_cases _ model Hty) as Hcases. rewrite <- Hload in Hcases.
  assert (Hin : ∀ l, l ∈ decoded <$> (Data <$> docs)
                     ↔ ∃ id d, c !! id = Some d ∧ has_type d ∧ l = decoded d).
  { intros l. rewrite <- list_fmap_compose, list_elem_of_fmap. split.
    - intros (s & -> & Hs). rewrite Hperm in Hs.
      apply elem_of_matching in Hs as [Hc Hm]. apply matches_newQuery in Hm.
      by exists (Ref s), (Data s).
    - intros (id & d & Hc & Hm & ->). exists (mkSnapshot id d). split; [done|].
      rewrite Hperm. apply elem_of_matching. by rewrite matches_newQuery. }
  split; [|split; [|done]].
  - split.
    + intros [model' Hret]. rewrite Hret in Hcases. destruct Hcases as [Hk _].
      intros id d Hc Hm. rewrite Forall_forall in Hk. apply Hk, Hin. eauto.
    + intros Hk. destruct (ret (LoadPolicy env c model)) as [[[e|]|] model'] eqn:Hret.
      * by destruct (Hne e).
      * eauto.
      * destruct Hcases as (pre & line & post & Heq & _ & Hn & _).
        destruct Hn. assert (Hl : line ∈ decoded <$> (Data <$> docs)).
        { rewrite Heq. apply elem_of_app. right. left. }
        apply Hin in Hl as (id & d & Hc & Hm & ->). by apply (Hk id).
  - split.
    + intros [model' Hret]. rewrite Hret in Hcases.
      destruct Hcases as (pre & line & post & Heq & _ & Hn & _).
      assert (Hl : line ∈ decoded <$> (Data <$> docs)).
      { rewrite Heq. apply elem_of_app. right. left. }
      apply Hin in Hl as (id & d & Hc & Hm & ->). eauto.
    + intros (id & d & Hc & Hm & Hn).
      destruct (ret (LoadPolicy env c model)) as [[[e|]|] model'] eqn:Hret.
      * by destruct (Hne e).
      * destruct Hcases as [Hk _]. destruct Hn.
        rewrite Forall_forall in Hk. apply Hk, Hin. eauto.
      * eauto.
Qed.

Lemma LoadPolicy_completes_iff_witness :
  let c : Collection :=
    <["a" := toDoc (savePolicyLine "p" ["alice"; "data1"; "read"])]>
    (<["b" := toDoc (savePolicyLine "p2" ["bob"; "data2"; "write"])]> ∅) in
  ∃ model', ret (LoadPolicy quiet c sample_model) = (Panic, model').
Proof.
  intros c.
  destruct (LoadPolicy_completes_iff quiet c sample_model) as (_ & [_ Hp] & _).
  - reflexivity.
  - intros id d Hc _. subst c.
    destruct (decide (id = "a")) as [-> | Ha].
    { rewrite lookup_insert_eq in Hc. injection Hc as <-. eexists. apply DataTo_toDoc. }
    rewrite lookup_insert_ne in Hc by done.
    destruct (decide (id = "b")) as [-> | Hb].
    { rewrite lookup_insert_eq in Hc. injection Hc as <-. eexists. apply DataTo_toDoc. }
    by rewrite lookup_insert_ne in Hc.
  - apply Hp. exists "b", (toDoc (savePolicyLine "p2" ["bob"; "data2"; "write"])).
    split; [reflexivity|]. split.
    + exists "p2". split; [reflexivity|discriminate].
    + intros [ast Hast]. vm_compute in Hast. discriminate.
Defined.

(** ** Saving over a collection in use, and rules a record cannot hold *)

Section SaveLoadAny.

Implicit Types (env : Env) (c : Collection) (model : Model) (am : AssertionMap).

Lemma map_to_list_disjoint_union {A} (m1 m2 : gmap string A) :
  m1 ##ₘ m2 → map_to_list (m1 ∪ m2) ≡ₚ map_to_list m1 ++ map_to_list m2.
Proof.
  intros Hd. apply NoDup_Permutation.
  - apply NoDup_map_to_list.
  - apply NoDup_app. split; [apply NoDup_map_to_list|].
    split; [|apply NoDup_map_to_list].
    intros [i x] H1%elem_of_map_to_list H2%elem_of_map_to_list.
    rewrite map_disjoint_spec in Hd. by apply (Hd i x x).
  - intros [i x]. rewrite elem_of_app, !elem_of_map_to_list.
    by apply lookup_union_Some.
Qed.

Lemma create_all_union (news : list (string * DocData)) c :
  NoDup news.*1 → create_all news c = list_to_map news ∪ c.
Proof.
  intros Hnd. apply map_eq; intros i. apply option_eq; intros d.
  rewrite (lookup_create_all _ _ _ _ Hnd), lookup_union_Some_raw.
  by rewrite (elem_of_list_to_map _ _ _ Hnd), (not_elem_of_list_to_map news i).
Qed.

(** The records with a type, after fresh typed documents were added to a
    collection that held none. *)
Lemma typed_after_create (news : list (string * DocData)) c :
  NoDup news.*1 →
  (∀ id, id ∈ news.*1 → c !! id = None) →
  (∀ d, d ∈ news.*2 → has_type d) →
  (∀ id d, c !! id = Some d → ¬ has_type d) →
  Data <$> matching newQuery (create_all news c) ≡ₚ news.*2.
Proof.
  intros Hnd Hfresh Hty Hun. rewrite (create_all_union _ _ Hnd).
  unfold matching, snapshots. rewrite map_to_list_disjoint_union.
  2:{ apply map_disjoint_spec. intros i x y Hx Hy.
      apply (elem_of_list_to_map _ _ _ Hnd) in Hx.
      rewrite Hfresh in Hy; [done|]. apply list_elem_of_fmap. by exists (i, x). }
  rewrite fmap_app, filter_app, fmap_app.
  rewrite (filter_none _ (_ <$> map_to_list c)).
  2:{ intros s (kv & -> & Hin)%list_elem_of_fmap.
      rewrite matches_newQuery. apply (Hun kv.1).
      apply elem_of_map_to_list. by destruct kv. }
  rewrite app_nil_r, filter_all.
  2:{ intros s (kv & -> & Hin)%list_elem_of_fmap.
      rewrite matches_newQuery. apply Hty.
      rewrite (map_to_list_to_map _ Hnd) in Hin.
      apply list_elem_of_fmap. by exists kv. }
  rewrite <- list_fmap_compose.
  by rewrite (map_to_list_to_map _ Hnd).
Qed.

Lemma line_tokens_stored (key : string) (l : list (list string)) :
  line_tokens <$> (savePolicyLine key <$> l) = stored_rule <$> l.
Proof.
  rewrite <- list_fmap_compose. apply list_fmap_ext. intros i rule _; simpl.
  rewrite line_tokens_longest_prefix, fields_savePolicyLine.
  apply longest_nonempty_prefix_take_pad.
Qed.

Lemma stored_tokens_of_type am (key : string) :
  line_tokens <$> filter (fun line => PType line = key) (section_rules am)
  ≡ₚ stored_rule <$> default [] (Policy <$> am !! key).
Proof.
  destruct (am !! key) as [ast|] eqn:Hk; simpl.
  - rewrite (section_rules_delete _ _ _ Hk), filter_app, fmap_app.
    rewrite filter_all, line_tokens_stored
      by (by intros line (rule & -> & _)%list_elem_of_fmap).
    rewrite filter_none; [by rewrite app_nil_r|].
    intros line (k' & ast' & rule & Hk' & _ & ->)%elem_of_section_rules; simpl.
    apply lookup_delete_Some in Hk' as [Hne _]. congruence.
  - rewrite filter_none; [done|].
    intros line (k' & ast' & rule & Hk' & _ & ->)%elem_of_section_rules; simpl.
    congruence.
Qed.

Lemma stored_tokens_filed model (sec key : string) :
  well_sectioned model → sec ∈ ["p"; "g"] →
  line_tokens <$> filter (filed_under sec key) (encoded_rules model)
  ≡ₚ stored_rule <$> policy_at model sec key.
Proof.
  intros Hws Hsec. unfold encoded_rules.
  rewrite filter_app, fmap_app.
  rewrite (section_rules_filed model "p") by (done || left).
  rewrite (section_rules_filed model "g") by (done || (right; left)).
  assert (Hpol : ∀ s : string,
    line_tokens <$> filter (fun line => PType line = key)
                      (section_rules (default ∅ (model !! s)))
    ≡ₚ stored_rule <$> policy_at model s key).
  { intros s. rewrite stored_tokens_of_type.
    unfold policy_at, assertion_at. destruct (model !! s) as [am|]; simpl; [|done].
    by destruct (am !! key). }
  destruct (section_cases sec Hsec) as [-> | ->].
  - rewrite decide_True, decide_False by done. rewrite app_nil_r. apply Hpol.
  - rewrite decide_False, decide_True by done. simpl. apply Hpol.
Qed.

End SaveLoadAny.

(** X13.  Saving over a collection in use, then loading.  Whatever the
    collection held, and whatever the rules of the model (of any length,
    with or without empty fields), [SavePolicy(model)] followed by
    [LoadPolicy] into the model cleared of its rules gives, under every
    section and policy type, the rules of the model as the record keeps
    them (cut after the sixth field and in front of the first empty one),
    up to their order: none of the rules stored before comes back.  (The
    policy types begin with the letter of their section, the transport does
    not fail and [NewDoc] draws distinct identifiers that are not in
    use.) *)
Theorem SavePolicy_then_LoadPolicy
    (env1 env2 : Env) (c : Collection) (model : Model) :
  no_faults env1 → no_faults env2 →
  NoDup (drawn_ids env1 0 (length (encoded_rules model))) →
  (∀ id, id ∈ drawn_ids env1 0 (length (encoded_rules model)) → c !! id = None) →
  well_sectioned model →
  let r1 := SavePolicy env1 c model in
  let r2 := LoadPolicy env2 (store r1) (ClearPolicy model) in
  ret r1 = None
  ∧ ∃ model',
      ret r2 = (Return None, model')
      ∧ ∀ sec key, sec ∈ ["p"; "g"] →
          policy_at model' sec key ≡ₚ stored_rule <$> policy_at model sec key.
Proof.
  intros Hnf1 Hnf2 Hids Hfree Hws r1 r2; subst r1 r2.
  pose proof (SavePolicy_lines_Permutation env1 model) as Hperm.
  set (lines := SavePolicy_lines env1 model) in *.
  set (news := new_docs env1 0 lines).
  assert (Hfst : news.*1 = drawn_ids env1 0 (length (encoded_rules model))).
  { subst news. by rewrite new_docs_fst, (Permutation_length Hperm). }
  assert (Hnd : NoDup news.*1) by (by rewrite Hfst).
  assert (Hfresh : ∀ id, id ∈ news.*1 → kept newQuery c !! id = None).
  { intros id Hid. rewrite Hfst in Hid. apply eq_None_not_Some. intros [d Hd].
    apply lookup_kept_Some in Hd as [Hd _]. by rewrite (Hfree id Hid) in Hd. }
  unfold SavePolicy. fold lines.
  destruct (replace_tx env1 c newQuery lines) as (_ & Hst & Hok).
  fold news in Hst, Hok.
  assert (Hret : ret (RunTransaction env1 c
             (iter ← tx_Documents env1 c newQuery;
              _ ← delete_each env1 iter;
              create_each env1 lines 0)) = None) by (by apply Hok).
  rewrite Hret in Hst. destruct Hst as (Hstore & _ & _).
  split; [done|]. rewrite Hstore.
  (* the documents the load reads *)
  assert (Htyped : ∀ d, d ∈ news.*2 → ∃ line, line ∈ lines ∧ d = toDoc line).
  { intros d Hd. subst news. rewrite new_docs_snd in Hd.
    apply list_elem_of_fmap in Hd as (line & -> & Hl). eauto. }
  assert (Hdata : Data <$> matching newQuery (create_all news (kept newQuery c))
                  ≡ₚ news.*2).
  { apply typed_after_create; [done..| |].
    - intros d (line & Hl & ->)%Htyped. apply has_type_toDoc.
      rewrite Hperm in Hl. by apply (encoded_rules_typed model line Hws).
    - intros id d [_ Hm]%lookup_kept_Some. by rewrite <- matches_newQuery. }
  destruct Hnf2 as (Hi2 & _ & _).
  unfold LoadPolicy. rewrite (Documents_no_fault _ _ _ Hi2).
  set (docs := arrange (stream_seed env2)
                 (matching newQuery (create_all news (kept newQuery c)))).
  assert (Hdocs : Data <$> docs ≡ₚ news.*2).
  { subst docs. by rewrite arrange_Permutation. }
  rewrite collect_rules_ok; simpl.
  2:{ intros s Hs. assert (Hd : Data s ∈ news.*2).
      { rewrite <- Hdocs. apply list_elem_of_fmap. eauto. }
      apply Htyped in Hd as (line & _ & ?). eauto. }
  set (rules := decoded <$> (Data <$> docs)).
  assert (Hrules : rules ≡ₚ encoded_rules model).
  { subst rules. rewrite Hdocs. subst news.
    rewrite new_docs_snd, <- list_fmap_compose.
    assert (Hid : decoded ∘ toDoc <$> lines = lines).
    { rewrite <- (list_fmap_id lines) at 2. apply list_fmap_ext.
      intros i line _. apply decoded_toDoc. }
    by rewrite Hid. }
  destruct (load_each_ok rules (ClearPolicy model)) as (model' & Hload & Hpol).
  { intros line Hl. rewrite Hrules in Hl. by apply encoded_rules_typed. }
  exists model'. split; [done|]. intros sec key Hsec.
  rewrite Hpol, policy_at_ClearPolicy by done. simpl.
  rewrite Hrules. by apply stored_tokens_filed.
Qed.

Lemma SavePolicy_then_LoadPolicy_witness :
  let model : Model :=
    <["p" := <["p" := mkAssertion [["a"; ""; "read"];
                                   ["c"; "d"; "e"; "f"; "g"; "h"; "i"]]]> ∅]>
    (<["g" := <["g" := mkAssertion []]> ∅]> ∅) in
  let c : Collection :=
    <["old" := toDoc (savePolicyLine "p" ["bob"; "data2"; "write"])]>
    (<["conf" := <["text" := VString "[request_definition]"]> ∅]> ∅) in
  let r1 := SavePolicy quiet c model in
  let r2 := LoadPolicy quiet (store r1) (ClearPolicy model) in
  ret r1 = None
  ∧ ∃ model',
      ret r2 = (Return None, model')
      ∧ ∀ sec key, sec ∈ ["p"; "g"] →
          policy_at model' sec key ≡ₚ stored_rule <$> policy_at model sec key.
Proof.
  apply (SavePolicy_then_LoadPolicy quiet).
  - repeat split.
  - repeat split.
  - apply (bool_decide_unpack _). vm_compute. reflexivity.
  - intros id Hid. vm_compute in Hid.
    apply elem_of_cons in Hid as [-> | Hid]; [reflexivity|].
    apply elem_of_cons in Hid as [-> | Hid]; [reflexivity|].
    by apply elem_of_nil in Hid.
  - intros sec am key ast Hsec Hm Hk.
    apply section_cases in Hsec as [-> | ->].
    + rewrite lookup_insert_eq in Hm. injection Hm as <-.
      destruct (decide (key = "p")) as [->|Hne]; [done|].
      by rewrite lookup_insert_ne in Hk.
    + rewrite lookup_insert_ne, lookup_insert_eq in Hm by done. injection Hm as <-.
      destruct (decide (key = "g")) as [->|Hne]; [done|].
      by rewrite lookup_insert_ne in Hk.
Defined.

(** ** The model definition beside the policy *)

Section ModelStore.

Variable ReadFile : string → Go.error + string.
Variable NewModelFromString : string → Go.error + Model.

Implicit Types (env : Env) (c : Collection) (d : DocData).

Lemma confDoc_untyped (text : string) : ¬ has_type (confDoc text).
Proof.
  unfold has_type, confDoc. intros (s & Hs & _).
  by rewrite lookup_insert_ne in Hs.
Qed.

Lemma DataTo_conf_confDoc (text : string) : DataTo_conf (confDoc text) = inr text.
Proof. unfold DataTo_conf, string_field, confDoc. by rewrite lookup_insert_eq. Qed.

(** What [SaveModelWithConfig] did, read off its result. *)
Lemma SaveModelWithConfig_cases env c (path_ : string) :
  let r := SaveModelWithConfig ReadFile NewModelFromString env c path_ in
  match ret r with
  | None =>
      ∃ text m, ReadFile path_ = inr text ∧ NewModelFromString text = inr m
                ∧ store r = <["conf" := confDoc text]> c
                ∧ trace r = [EvTransaction; EvWrite (WSet "conf" (confDoc text))]
  | Some _ =>
      store r = c
      ∧ (trace r = [] ∨ trace r = [EvTransaction]
         ∨ ∃ text, ReadFile path_ = inr text
                   ∧ trace r = [EvTransaction; EvWrite (WSet "conf" (confDoc text))])
  end.
Proof.
  intros r; subst r. unfold SaveModelWithConfig.
  destruct (ReadFile path_) as [e|text]; simpl; [by eauto|].
  destruct (NewModelFromString text) as [e|m] eqn:Hm; simpl; [by eauto|].
  unfold RunTransaction, tx_Set, tx_write.
  destruct (write_fault env _); simpl; [by eauto|].
  destruct (commit_fault env); simpl.
  - split; [done|]. right; right. by exists text.
  - by exists text, m.
Qed.

(** [LoadModelWithConfig] reads the document "conf" and nothing else. *)
Lemma LoadModelWithConfig_ext (fault : option Go.error) c c' :
  c' !! "conf" = c !! "conf" →
  LoadModelWithConfig NewModelFromString fault c'
  = LoadModelWithConfig NewModelFromString fault c.
Proof. unfold LoadModelWithConfig, Get. by intros ->. Qed.

End ModelStore.

(** X14.  Saving the model definition, then loading it.  After a
    [SaveModelWithConfig] that returned no error, the document "conf" holds
    the text of the file, and [LoadModelWithConfig] returns the model that
    [NewModelFromString] makes of that text: the text was validated before
    it was written, so the load fails only if the read of the document
    does. *)
Theorem SaveModel_then_LoadModel
    (ReadFile : string → Go.error + string)
    (NewModelFromString : string → Go.error + Model)
    (env : Env) (c : Collection) (path_ : string) :
  let r := SaveModelWithConfig ReadFile NewModelFromString env c path_ in
  ret r = None →
  ∃ text m,
    ReadFile path_ = inr text
    ∧ NewModelFromString text = inr m
    ∧ store r !! "conf" = Some (confDoc text)
    ∧ LoadModelWithConfig NewModelFromString None (store r) = inr m
    ∧ ∀ err, LoadModelWithConfig NewModelFromString (Some err) (store r) = inl err.
Proof.
  intros r Hret.
  pose proof (SaveModelWithConfig_cases ReadFile NewModelFromString env c path_) as H.
  cbv zeta in H. fold r in H. rewrite Hret in H.
  destruct H as (text & m & Hread & Hm & Hst & _).
  exists text, m. split; [done|]. split; [done|].
  assert (Hconf : store r !! "conf" = Some (confDoc text)).
  { rewrite Hst. apply (lookup_insert_eq c). }
  split; [done|]. split; [|done].
  unfold LoadModelWithConfig, Get. rewrite Hconf; simpl.
  by rewrite DataTo_conf_confDoc.
Qed.

Lemma SaveModel_then_LoadModel_witness :
  let ReadFile := fun _ : string => inr "[request_definition]" : Go.error + string in
  let NewModelFromString := fun _ : string => inr sample_model : Go.error + Model in
  let c : Collection :=
    <["a" := toDoc (savePolicyLine "p" ["alice"; "data1"; "read"])]> ∅ in
  let r := SaveModelWithConfig ReadFile NewModelFromString quiet c
             "examples/rbac_model.conf" in
  ∃ text m,
    ReadFile "examples/rbac_model.conf" = inr text
    ∧ NewModelFromString text = inr m
    ∧ store r !! "conf" = Some (confDoc text)
    ∧ LoadModelWithConfig NewModelFromString None (store r) = inr m
    ∧ ∀ err, LoadModelWithConfig NewModelFromString (Some err) (store r) = inl err.
Proof.
  intros ReadFile NewModelFromString c r.
  apply (SaveModel_then_LoadModel ReadFile NewModelFromString quiet c).
  reflexivity.
Defined.

(** X15.  [SaveModelWithConfig] writes the document "conf" and no other:
    it issues no query, buffers at most one write, a [Set] of the file's
    text on "conf", and whatever it returns every other document is as it
    was.  The document it writes has no type field, so the records that the
    adapter's queries select afterwards are those they selected before,
    but for a record that sat under "conf". *)
Theorem SaveModel_writes_conf_only
    (ReadFile : string → Go.error + string)
    (NewModelFromString : string → Go.error + Model)
    (env : Env) (c : Collection) (path_ : string) :
  let r := SaveModelWithConfig ReadFile NewModelFromString env c path_ in
  queries (trace r) = []
  ∧ (∀ w, w ∈ buffered (trace r) →
       buffered (trace r) = [w]
       ∧ ∃ text, ReadFile path_ = inr text ∧ w = WSet "conf" (confDoc text))
  ∧ (∀ id, id ≠ "conf" → store r !! id = c !! id)
  ∧ (ret r ≠ None → store r = c)
  ∧ (ret r = None →
     ∀ s, s ∈ matching newQuery (store r)
          ↔ s ∈ matching newQuery c ∧ Ref s ≠ "conf").
Proof.
  intros r.
  pose proof (SaveModelWithConfig_cases ReadFile NewModelFromString env c path_) as H.
  cbv zeta in H. fold r in H.
  destruct (ret r) as [e|].
  - destruct H as [Hst Htr]. rewrite Hst.
    split; [|split; [|split; [done|split; [done|done]]]].
    + by destruct Htr as [-> | [-> | (text & _ & ->)]].
    + intros w. destruct Htr as [-> | [-> | (text & Hread & ->)]]; simpl.
      * intros Hw. by apply elem_of_nil in Hw.
      * intros Hw. by apply elem_of_nil in Hw.
      * intros ->%list_elem_of_singleton. eauto.
  - destruct H as (text & m & Hread & _ & Hst & Htr). rewrite Hst, Htr.
    split; [done|]. split; [|split; [|split; [done|]]].
    + simpl. intros w ->%list_elem_of_singleton. eauto.
    + intros id Hne. by rewrite lookup_insert_ne.
    + intros _ s. rewrite !elem_of_matching, !matches_newQuery.
      destruct (decide (Ref s = "conf")) as [Heq|Hne].
      * rewrite Heq, lookup_insert_eq. split; [|by intros [_ ?]].
        intros [[= Hd] Ht]. rewrite <- Hd in Ht.
        by apply confDoc_untyped in Ht.
      * rewrite lookup_insert_ne by done. tauto.
Qed.

(** X16.  The adapter never touches the model definition.  A document
    "conf" that has no non-empty string under the type field, as the one
    [SaveModelWithConfig] writes, is still there, unchanged, after
    [SavePolicy], [AddPolicy], [RemovePolicy] and [RemoveFilteredPolicy],
    failed or not, so [LoadModelWithConfig] returns after each of them what
    it returned before. *)
Theorem model_definition_survives
    (NewModelFromString : string → Go.error + Model)
    (fault : option Go.error)
    (env : Env) (c : Collection) (d : DocData) (model : Model)
    (sec ptype : string) (rule : list string)
    (fieldIndex : Z) (fieldValues : list string) :
  c !! "conf" = Some d → ¬ has_type d →
  let before := LoadModelWithConfig NewModelFromString fault c in
  (store (SavePolicy env c model) !! "conf" = Some d
   ∧ LoadModelWithConfig NewModelFromString fault (store (SavePolicy env c model))
     = before)
  ∧ (store (AddPolicy env c sec ptype rule) !! "conf" = Some d
     ∧ LoadModelWithConfig NewModelFromString fault
         (store (AddPolicy env c sec ptype rule)) = before)
  ∧ (store (RemovePolicy env c sec ptype rule) !! "conf" = Some d
     ∧ LoadModelWithConfig NewModelFromString fault
         (store (RemovePolicy env c sec ptype rule)) = before)
  ∧ ∀ r, RemoveFilteredPolicy env c sec ptype fieldIndex fieldValues = Some r →
      store r !! "conf" = Some d
      ∧ LoadModelWithConfig NewModelFromString fault (store r) = before.
Proof.
  intros Hc Hu before; subst before.
  assert (Hkeep : ∀ c', c' !! "conf" = Some d →
            c' !! "conf" = Some d
            ∧ LoadModelWithConfig NewModelFromString fault c'
              = LoadModelWithConfig NewModelFromString fault c).
  { intros c' Hc'. split; [done|]. apply LoadModelWithConfig_ext. by rewrite Hc'. }
  split; [|split; [|split]].
  - apply Hkeep. apply RunTransaction_keeps_untyped; [done..|].
    apply replace_tx_writes, type_guard_newQuery.
  - apply Hkeep. apply RunTransaction_keeps_untyped; [done..|].
    fold (AddPolicy env c sec ptype rule). intros w.
    destruct (AddPolicy_trace env c sec ptype rule) as [-> | ->]; simpl.
    + intros Hw; by apply elem_of_nil in Hw.
    + intros ->%list_elem_of_singleton. right. eauto.
  - apply Hkeep. apply RunTransaction_keeps_untyped; [done..|].
    apply delete_tx_writes, type_guard_RemovePolicy_query.
  - intros r (selector & ->)%RemoveFilteredPolicy_Some.
    apply Hkeep. apply RunTransaction_keeps_untyped; [done..|].
    apply delete_tx_writes, type_guard_selector_query.
Qed.

Lemma model_definition_survives_witness :
  let NewModelFromString := fun _ : string => inr sample_model : Go.error + Model in
  let c : Collection :=
    <["conf" := confDoc "[request_definition]"]>
    (<["a" := toDoc (savePolicyLine "p" ["alice"; "data1"; "read"])]> ∅) in
  store (SavePolicy quiet c sample_model) !! "conf"
    = Some (confDoc "[request_definition]")
  ∧ LoadModelWithConfig NewModelFromString None (store (SavePolicy quiet c sample_model))
    = LoadModelWithConfig NewModelFromString None c.
Proof.
  intros NewModelFromString c.
  destruct (model_definition_survives NewModelFromString None quiet c
              (confDoc "[request_definition]") sample_model "p" "p" [] 0 [])
    as [H _].
  - reflexivity.
  - intros (s & Hs & _). discriminate.
  - exact H.
Defined.

(** X17.  [LoadModelWithConfig] returns a model only from a stored
    definition: it succeeds exactly when the read does not fail, the
    document "conf" exists, its text field is a string (or absent, which
    reads as the empty text) and [NewModelFromString] accepts that text.
    On a collection without the document it returns an error, whatever the
    parser would accept. *)
Theorem LoadModel_needs_definition
    (NewModelFromString : string → Go.error + Model)
    (fault : option Go.error) (c : Collection) :
  (∀ m, LoadModelWithConfig NewModelFromString fault c = inr m
        ↔ fault = None
          ∧ ∃ d text, c !! "conf" = Some d
                      ∧ string_field d "text" = inr text
                      ∧ NewModelFromString text = inr m)
  ∧ (c !! "conf" = None →
     ∃ err, LoadModelWithConfig NewModelFromString fault c = inl err).
Proof.
  unfold LoadModelWithConfig, Get, DataTo_conf. split.
  - intros m. destruct fault as [e|]; [split; [done|by intros [? _]]|].
    destruct (c !! "conf") as [d|]; simpl.
    + destruct (string_field d "text") as [e|text] eqn:Hf.
      * split; [done|]. intros (_ & d' & text & [= <-] & Ht & _). congruence.
      * split; [by eauto 10|]. intros (_ & d' & text' & [= <-] & Ht & Hm).
        congruence.
    + split; [done|]. by intros (_ & d & text & ? & _).
  - intros ->. destruct fault; eauto.
Qed.

(** ** The collection an adapter works on *)

(** X18.  The name of the collection is never empty: [collectionName]
    gives the configured name, or "casbin" when none is configured, and
    gives back a name it has returned; so an adapter made with an empty
    [Config] is the adapter [NewAdapter] makes. *)
Theorem collectionName_default (Client : Type) (db : Client) (config : Config) :
  collectionName config ≠ ""
  ∧ (Collection_name config ≠ "" → collectionName config = Collection_name config)
  ∧ (Collection_name config = "" → collectionName config = "casbin")
  ∧ collectionName (mkConfig (collectionName config)) = collectionName config
  ∧ collection (NewAdapterWithConfig db config) ≠ ""
  ∧ collection (NewAdapter db) = "casbin"
  ∧ NewAdapterWithConfig db (mkConfig "") = NewAdapter db.
Proof.
  assert (Hne : collectionName config ≠ "").
  { unfold collectionName. by case_decide. }
  split; [done|]. split; [|split; [|split; [|split; [done|split; [done|done]]]]].
  - intros H. unfold collectionName. by rewrite decide_True.
  - intros H. unfold collectionName. by rewrite decide_False by (by intros ?).
  - unfold collectionName at 1. simpl. by rewrite decide_True.
Qed.

(** ** The comparison of policies in the tests *)

Section Comparison.

Implicit Types (a b : list (list string)) (diff : gmap string bool).

(** The first loop enters the key of every rule as not seen. *)
Lemma lookup_entered a diff (k : string) :
  foldl (fun diff v => <[Join v := false]> diff) diff a !! k
  = if decide (k ∈ Join <$> a) then Some false else diff !! k.
Proof.
  revert diff; induction a as [|v a IH]; intros diff.
  - cbn [foldl]. rewrite decide_False; [done|]. apply not_elem_of_nil.
  - cbn [foldl]. rewrite IH, fmap_cons. destruct (decide (k ∈ Join <$> a)) as [Hin|Hin].
    + rewrite decide_True; [done|]. by right.
    + destruct (decide (k = Join v)) as [->|Hne].
      * rewrite lookup_insert_eq, decide_True; [done|]. left.
      * rewrite lookup_insert_ne by done. rewrite decide_False; [done|].
        by intros [?|?]%elem_of_cons.
Qed.

(** The second loop gives up at a rule whose key was not entered, and
    marks the keys of the others. *)
Lemma mark_seen_cases b diff :
  match mark_seen b diff with
  | Some diff' =>
      (∀ v, v ∈ b → is_Some (diff !! Join v))
      ∧ ∀ k : string, diff' !! k
             = if decide (k ∈ Join <$> b) then Some true else diff !! k
  | None => ∃ v, v ∈ b ∧ diff !! Join v = None
  end.
Proof.
  revert diff; induction b as [|v b IH]; intros diff.
  - cbn [mark_seen]. split; [by intros v Hv%elem_of_nil|]. intros k.
    rewrite decide_False; [done|]. apply not_elem_of_nil.
  - cbn [mark_seen]. rewrite fmap_cons.
    destruct (diff !! Join v) as [seen|] eqn:Hv.
    2:{ exists v. split; [left|done]. }
    specialize (IH (<[Join v := true]> diff)).
    destruct (mark_seen b (<[Join v := true]> diff)) as [diff'|].
    + destruct IH as [Hall Hlook]. split.
      * intros v' [->|Hin]%elem_of_cons; [by rewrite Hv|].
        specialize (Hall v' Hin).
        destruct (decide (Join v' = Join v)) as [Heq|Hne].
        -- by rewrite Heq, Hv.
        -- by rewrite lookup_insert_ne in Hall.
      * intros k. rewrite Hlook.
        destruct (decide (k ∈ Join <$> b)) as [Hin|Hin].
        -- rewrite decide_True; [done|]. by right.
        -- destruct (decide (k = Join v)) as [->|Hne].
           ++ rewrite lookup_insert_eq, decide_True; [done|]. left.
           ++ rewrite lookup_insert_ne by done. rewrite decide_False; [done|].
              by intros [?|?]%elem_of_cons.
    + destruct IH as (v' & Hin & Hnone). exists v'. split; [by right|].
      destruct (decide (Join v' = Join v)) as [Heq|Hne].
      * by rewrite Heq, lookup_insert_eq in Hnone.
      * by rewrite lookup_insert_ne in Hnone.
Qed.

End Comparison.

(** X19.  [SamePolicy] compares two policies as sets of joined rules: it
    returns true exactly when every rule of one, joined with commas, is the
    join of a rule of the other.  The order of the rules, how often a rule
    occurs, and the order in which Go ranges over the map play no part. *)
Theorem SamePolicy_same_keys (env : Env) (a b : list (list string)) :
  SamePolicy env a b = true ↔ ∀ k, k ∈ Join <$> a ↔ k ∈ Join <$> b.
Proof.
  unfold SamePolicy.
  set (diff := foldl (fun diff v => <[Join v := false]> diff) ∅ a).
  assert (Hdiff : ∀ k : string,
            diff !! k = if decide (k ∈ Join <$> a) then Some false else None).
  { intros k. subst diff. by rewrite lookup_entered, lookup_empty. }
  pose proof (mark_seen_cases b diff) as Hcases.
  destruct (mark_seen b diff) as [diff'|].
  - destruct Hcases as [Hall Hlook]. rewrite forallb_forall. split.
    + intros Hseen k. split.
      * intros Ha. destruct (decide (k ∈ Join <$> b)) as [Hb|Hb]; [done|].
        assert (Hk : (k, false) ∈ range env 0 diff').
        { apply elem_of_range. rewrite Hlook, decide_False by done.
          by rewrite Hdiff, decide_True. }
        apply list_elem_of_In, Hseen in Hk. discriminate.
      * intros (v & -> & Hv)%list_elem_of_fmap.
        specialize (Hall v Hv). rewrite Hdiff in Hall.
        destruct (decide (Join v ∈ Join <$> a)); [done|]. by destruct Hall.
    + intros Hsame [k seen] Hin%list_elem_of_In%elem_of_range; simpl.
      rewrite Hlook in Hin. destruct (decide (k ∈ Join <$> b)) as [Hb|Hb].
      * by injection Hin as <-.
      * rewrite Hdiff, decide_False in Hin; [done|]. by rewrite Hsame.
  - destruct Hcases as (v & Hv & Hnone). split; [done|]. intros Hsame.
    rewrite Hdiff in Hnone.
    destruct (decide (Join v ∈ Join <$> a)) as [Ha|Ha]; [done|].
    destruct Ha. apply Hsame. apply list_elem_of_fmap. eauto.
Qed.

(** Two policies that differ pass for the same when their rules join to
    the same strings, or when they differ in how often a rule occurs. *)
Example SamePolicy_blind_spots :
  SamePolicy quiet [["alice,data1"; "read"]] [["alice"; "data1,read"]] = true
  ∧ SamePolicy quiet [["a"; "b"]; ["a"; "b"]] [["a"; "b"]] = true.
Proof. split; vm_compute; reflexivity. Qed.

(** ** What the adapter writes, it can read *)

Section AdapterWritten.

Implicit Types (env : Env) (c : Collection) (d : DocData).

Lemma adapter_written_kept q c : adapter_written c → adapter_written (kept q c).
Proof. intros Hc id d [Hd _]%lookup_kept_Some. by apply (Hc id). Qed.

Lemma adapter_written_insert c (id : string) d :
  (has_type d → ∃ line, d = toDoc line) →
  adapter_written c → adapter_written (<[id := d]> c).
Proof.
  intros Hd Hc id' d'. destruct (decide (id' = id)) as [->|Hne].
  - rewrite lookup_insert_eq. by intros [= <-].
  - rewrite lookup_insert_ne by done. apply Hc.
Qed.

Lemma adapter_written_create_all (news : list (string * DocData)) c :
  NoDup news.*1 →
  (∀ d, d ∈ news.*2 → ∃ line, d = toDoc line) →
  adapter_written c → adapter_written (create_all news c).
Proof.
  intros Hnd Hnews Hc id d [Hin|[_ Hd]]%(lookup_create_all _ _ _ _ Hnd) Ht.
  - apply Hnews. apply list_elem_of_fmap. by exists (id, d).
  - by apply (Hc id).
Qed.

(** On such a collection the reading loop of [LoadPolicy] meets no
    decoding error. *)
Lemma adapter_written_decodes env c (model : Model) :
  adapter_written c → iter_fault env = None →
  ∀ err, (ret (LoadPolicy env c model)).1 ≠ Return (Some err).
Proof.
  intros Hc Hnf. unfold LoadPolicy. rewrite (Documents_no_fault _ _ _ Hnf).
  rewrite collect_rules_decodable; simpl.
  - intros err H. destruct (load_each _ model) as [k m] eqn:Hl. simpl in H.
    subst k. by apply load_each_no_error in Hl.
  - apply Forall_forall. intros s Hs.
    rewrite arrange_Permutation in Hs. apply elem_of_matching in Hs as [Hs Hm].
    destruct (Hc (Ref s) (Data s) Hs) as [line ->]; [by apply matches_newQuery|].
    exists line. apply DataTo_toDoc.
Qed.

End AdapterWritten.

(** X20.  What the adapter writes, it can read.  If every record with a
    type is one the adapter wrote (the seven fields of a rule, as strings),
    this is still so after [SavePolicy], [AddPolicy], [RemovePolicy],
    [RemoveFilteredPolicy] and [SaveModelWithConfig], failed or not; and on
    such a collection [LoadPolicy] returns an error only if the stream of
    documents fails, never because a record does not decode. *)
Theorem adapter_written_invariant
    (env : Env) (c : Collection) (model : Model)
    (sec ptype : string) (rule : list string)
    (fieldIndex : Z) (fieldValues : list string) :
  adapter_written c →
  adapter_written (store (SavePolicy env c model))
  ∧ adapter_written (store (AddPolicy env c sec ptype rule))
  ∧ adapter_written (store (RemovePolicy env c sec ptype rule))
  ∧ (∀ r, RemoveFilteredPolicy env c sec ptype fieldIndex fieldValues = Some r →
       adapter_written (store r))
  ∧ (∀ ReadFile NewModelFromString path_,
       adapter_written
         (store (SaveModelWithConfig ReadFile NewModelFromString env c path_)))
  ∧ (iter_fault env = None →
     ∀ err, (ret (LoadPolicy env c model)).1 ≠ Return (Some err)).
Proof.
  intros Hc. split; [|split; [|split; [|split; [|split]]]].
  - unfold SavePolicy.
    destruct (replace_tx env c newQuery (SavePolicy_lines env model)) as (_ & Hst & _).
    destruct (ret _); [by rewrite Hst|]. destruct Hst as (-> & Hnd & _).
    apply adapter_written_create_all; [done| |by apply adapter_written_kept].
    intros d. rewrite new_docs_snd. intros (line & -> & _)%list_elem_of_fmap. eauto.
  - pose proof (AddPolicy_result env c sec ptype rule) as H. cbv zeta in H.
    destruct (ret (AddPolicy env c sec ptype rule)); [by rewrite H|].
    destruct H as [_ ->]. apply adapter_written_insert; [eauto|done].
  - pose proof (RemovePolicy_result env c sec ptype rule) as H. cbv zeta in H.
    destruct (ret (RemovePolicy env c sec ptype rule)); rewrite H; [done|].
    by apply adapter_written_kept.
  - intros r (selector & ->)%RemoveFilteredPolicy_Some.
    destruct (delete_tx env c (selector_query env selector)) as (_ & Hst & _).
    destruct (ret _); rewrite Hst; [done|]. by apply adapter_written_kept.
  - intros ReadFile NewModelFromString path_.
    pose proof (SaveModelWithConfig_cases ReadFile NewModelFromString env c path_) as H.
    cbv zeta in H.
    destruct (ret (SaveModelWithConfig ReadFile NewModelFromString env c path_)).
    + destruct H as [-> _]. done.
    + destruct H as (text & m & _ & _ & -> & _).
      apply adapter_written_insert; [|done].
      intros Ht. by apply confDoc_untyped in Ht.
  - intros Hnf. by apply adapter_written_decodes.
Qed.

Lemma adapter_written_invariant_witness :
  adapter_written
    (store (AddPolicy quiet (store (SavePolicy quiet ∅ sample_model))
              "p" "p" ["alice"; "data1"; "read"])).
Proof.
  assert (H0 : adapter_written ∅) by (intros id d Hd; by rewrite lookup_empty in Hd).
  destruct (adapter_written_invariant quiet ∅ sample_model "p" "p" [] 0 [] H0)
    as (H1 & _).
  destruct (adapter_written_invariant quiet (store (SavePolicy quiet ∅ sample_model))
              sample_model "p" "p" ["alice"; "data1"; "read"] 0 [] H1)
    as (_ & H2 & _).
  exact H2.
Defined.
